(** * cloudant_exporter: the supervision core of [cmd/cloudant_exporter/main.go]

    A shallow embedding of [monitorLooper.Go], of the configuration built in
    [main] and of the fan-in shutdown protocol, together with the
    properties the specification states about them.

    Conventions.
    - Instants and durations are [Z] nanoseconds, as Go's [time.Duration]
      (an [int64]) counts them.
    - [Go] is written in a small state monad over the goroutine's view of
      the world: the clock, the [FailBox] behind the looper's pointer and
      the list of observable events produced so far.
    - The clock advances only where the goroutine is suspended: in
      [time.Sleep], while blocked on the ticker channel and while
      [Retrieve] is outstanding.  The bookkeeping calls in between read
      the clock at the instant the retrieval returned. *)

From Stdlib Require Import ZArith List String Bool Lia.
Import ListNotations.

Local Open Scope Z_scope.

(** ** [time]: the constants of Go's package used by the program *)

Module time.

Definition Duration := Z.

Definition Nanosecond : Duration := 1.
Definition Microsecond : Duration := 1000 * Nanosecond.
Definition Millisecond : Duration := 1000 * Microsecond.
Definition Second : Duration := 1000 * Millisecond.
Definition Minute : Duration := 60 * Second.

End time.

(** Go's [int] on the 64-bit targets the exporter is built for: the
    product [offset * int(time.Second)] is computed in it. *)
Definition wrap_int (x : Z) : Z :=
  (x + 2 ^ 63) mod 2 ^ 64 - 2 ^ 63.

(** [rand.Intn(n)] for [n > 0]: a number of the half-open interval
    [[0, n)] obtained from the generator's raw draw. *)
Module rand.

Definition Intn (n : Z) (draw : Z) : Z := draw mod n.

End rand.

(** Go's [error]: [nil] or a reason. *)
Definition error := option string.

(** ** [utils.FailBox] *)

Module utils.

(** Modelled from the spec: package [internal/utils] (type [FailBox]
    and its methods [NewFailBox], [Success], [Failure], [LastSuccess],
    [ShouldExit]) is not among the sources; the definitions below
    follow section 4.1 of the specification (FailureWindow), with the
    clock reading [now] an explicit argument as the contract writes
    it. *)
Record FailBox := mkFailBox {
  created : Z;                (* creation timestamp, the fallback *)
  threshold : time.Duration;  (* fixed at construction *)
  lastSuccess : option Z;     (* set on every success, never cleared *)
  lastFailure : option Z      (* informational only *)
}.

(** Modelled from the spec: [NewFailBox(threshold)] evaluated at
    instant [now] (method of the absent package [internal/utils]). *)
Definition NewFailBox (now : Z) (failAfter : time.Duration) : FailBox :=
  {| created := now; threshold := failAfter;
     lastSuccess := None; lastFailure := None |}.

(** Modelled from the spec: [recordSuccess(now)] sets
    [lastSuccess = now] (method [Success] of the absent package). *)
Definition Success (now : Z) (b : FailBox) : FailBox :=
  {| created := created b; threshold := threshold b;
     lastSuccess := Some now; lastFailure := lastFailure b |}.

(** Modelled from the spec: [recordFailure(now)] does not mutate
    [lastSuccess] (method [Failure] of the absent package). *)
Definition Failure (now : Z) (b : FailBox) : FailBox :=
  {| created := created b; threshold := threshold b;
     lastSuccess := lastSuccess b; lastFailure := Some now |}.

(** Modelled from the spec: the last-success timestamp shown in the
    log lines (method [LastSuccess] of the absent package). *)
Definition LastSuccess (b : FailBox) : option Z := lastSuccess b.

(** Modelled from the spec: [shouldExit(now)] is true iff
    [lastSuccess] is set and [now - lastSuccess > threshold], or it
    has never been set and [now] is past the threshold measured from
    the creation of the window (method [ShouldExit] of the absent
    package). *)
Definition ShouldExit (now : Z) (b : FailBox) : bool :=
  match lastSuccess b with
  | Some t => threshold b <? now - t
  | None => threshold b <? now - created b
  end.

(** One call made on a window, with the clock reading it was made at. *)
Inductive call :=
| recordSuccess (now : Z)
| recordFailure (now : Z).

Definition apply_call (b : FailBox) (c : call) : FailBox :=
  match c with
  | recordSuccess now => Success now b
  | recordFailure now => Failure now b
  end.

(** Feeding a sequence of calls, oldest first. *)
Definition feed (b : FailBox) (cs : list call) : FailBox :=
  fold_left apply_call cs b.

Definition is_failure (c : call) : bool :=
  match c with recordFailure _ => true | recordSuccess _ => false end.

(** The instant of the most recent [recordSuccess] of a sequence, read
    off the sequence itself. *)
Fixpoint last_success_of (cs : list call) (acc : option Z) : option Z :=
  match cs with
  | [] => acc
  | recordSuccess t :: cs' => last_success_of cs' (Some t)
  | recordFailure _ :: cs' => last_success_of cs' acc
  end.

End utils.

(** ** The goroutine's world *)

(** What the program writes with [log.Printf], one constructor per format
    string of [main.go]. *)
Inductive logline :=
| LogStartup (name : string) (offset : Z)
    (* "[%s] startup tick (+%d s)" *)
| LogTick (name : string)
    (* "[%s] tick" *)
| LogError (name : string) (reason : string) (last : option Z)
    (* "[%s] error getting tasks: %v; last success: %s" *)
| LogExiting (name : string) (after : time.Duration) (last : option Z)
    (* "[%s] exiting; >%s since last success at %s" *)
| LogDied (name : string)
    (* "A monitor died: %q! Exiting." *)
| LogFatal (reason : string).
    (* log.Fatal(server.ListenAndServe()) *)

(** The observable events of one looper, in program order. *)
Inductive event :=
| Slept (d : time.Duration)            (* time.Sleep(d) returned *)
| Logged (l : logline)
| RetrieveCalled                       (* rc.Chk.Retrieve() entered *)
| RetrieveReturned (e : error)         (* ... and returned [e] *)
| BoxSuccess (now : Z)                 (* rc.FailBox.Success() *)
| BoxFailure (now : Z)                 (* rc.FailBox.Failure() *)
| BoxShouldExit (now : Z) (b : bool)   (* rc.FailBox.ShouldExit() = b *)
| TickerStarted (d : time.Duration)    (* time.NewTicker(d) *)
| TickReceived.                        (* a value arrived on ticker.C *)

(** The answer of the monitored service to one [Retrieve]: how long the
    call was outstanding and the error it returned. *)
Record reply := mkReply {
  took : time.Duration;
  err : error
}.

(** One ticker-driven iteration as the environment decides it: how long
    the loop stayed blocked on [ticker.C], then the service's answer. *)
Record beat := mkBeat {
  wait : time.Duration;
  answer : reply
}.

(** The [monitor] interface.  [Name] is a constant of the implementation;
    what [Retrieve] returns is the environment's [reply]. *)
Record monitor := mkMonitor {
  Name : string
}.

Record monitorLooper := mkLooper {
  Interval : time.Duration;
  FailBox : utils.FailBox;     (* initial contents of the pointed box *)
  Chk : monitor
}.

(** What the goroutine can see and change. *)
Record world := mkWorld {
  clock : Z;
  box : utils.FailBox;
  trace : list event
}.

(** *** A state monad over [world] *)

Definition M (A : Type) : Type := world -> A * world.

Definition ret {A} (a : A) : M A := fun w => (a, w).

Definition bind {A B} (m : M A) (k : A -> M B) : M B :=
  fun w => let (a, w') := m w in k a w'.

Declare Scope go_scope.
Delimit Scope go_scope with go.
Notation "x <- m ;; k" := (bind m (fun x => k))
  (at level 61, m at next level, right associativity) : go_scope.
Notation "m ;; k" := (bind m (fun _ => k))
  (at level 61, right associativity) : go_scope.

Definition emit (e : event) : M unit :=
  fun w => (tt, {| clock := clock w; box := box w;
                   trace := trace w ++ [e] |}).

Definition elapse (d : time.Duration) : M unit :=
  fun w => (tt, {| clock := clock w + d; box := box w;
                   trace := trace w |}).

Definition now : M Z := fun w => (clock w, w).

Definition read_box : M utils.FailBox := fun w => (box w, w).

Definition update_box (f : utils.FailBox -> utils.FailBox) : M unit :=
  fun w => (tt, {| clock := clock w; box := f (box w);
                   trace := trace w |}).

(** The calls [Go] makes, each leaving its event. *)

Definition Sleep (d : time.Duration) : M unit :=
  (elapse d ;; emit (Slept d))%go.

Definition Printf (l : logline) : M unit := emit (Logged l).

Definition Retrieve (r : reply) : M error :=
  (emit RetrieveCalled ;;
   elapse (took r) ;;
   emit (RetrieveReturned (err r)) ;;
   ret (err r))%go.

Definition LastSuccess : M (option Z) :=
  (b <- read_box ;; ret (utils.LastSuccess b))%go.

Definition Success : M unit :=
  (t <- now ;; update_box (utils.Success t) ;; emit (BoxSuccess t))%go.

Definition Failure : M unit :=
  (t <- now ;; update_box (utils.Failure t) ;; emit (BoxFailure t))%go.

Definition ShouldExit : M bool :=
  (t <- now ;;
   b <- read_box ;;
   let x := utils.ShouldExit t b in
   emit (BoxShouldExit t x) ;;
   ret x)%go.

Definition NewTicker (d : time.Duration) : M unit := emit (TickerStarted d).

Definition receive_tick (d : time.Duration) : M unit :=
  (elapse d ;; emit TickReceived)%go.

(** ** [main.go]: constants and [monitorLooper.Go] *)

Definition failAfter : time.Duration := 5 * time.Minute.

(** Lines 150-156 and 161-169: one retrieval and its bookkeeping. *)
Definition poll (rc : monitorLooper) (r : reply) : M unit :=
  (e <- Retrieve r ;;
   match e with
   | Some reason =>
       last <- LastSuccess ;;
       Printf (LogError (Name (Chk rc)) reason last) ;;
       Failure
   | None => Success
   end)%go.

(** Lines 147-156: the random pause and the first poll. *)
Definition startup (rc : monitorLooper) (draw : Z) (first : reply) : M unit :=
  (let offset := rand.Intn 15 draw in
   Sleep (wrap_int (offset * time.Second)) ;;
   Printf (LogStartup (Name (Chk rc)) offset) ;;
   poll rc first)%go.

(** Lines 160-174: the body of [for range ticker.C]; [true] stands for
    the [return]. *)
Definition tick (rc : monitorLooper) (r : reply) : M bool :=
  (Printf (LogTick (Name (Chk rc))) ;;
   poll rc r ;;
   x <- ShouldExit ;;
   if x then
     last <- LastSuccess ;;
     Printf (LogExiting (Name (Chk rc)) failAfter last) ;;
     ret true
   else ret false)%go.

(** How a run of [Go] over a finite supply of ticks ends. *)
Inductive outcome :=
| Returned      (* the [return] of line 173 was reached *)
| Waiting       (* blocked on [ticker.C]: the supply is used up *)
| Panicked.     (* [time.NewTicker] panics on a non-positive interval *)

(** Lines 159-175. *)
Fixpoint loop (rc : monitorLooper) (beats : list beat) : M outcome :=
  match beats with
  | [] => ret Waiting
  | b :: rest =>
      (receive_tick (wait b) ;;
       stop <- tick rc (answer b) ;;
       if (stop : bool) then ret Returned else loop rc rest)%go
  end.

(** [func (rc *monitorLooper) Go()]. *)
Definition Go (rc : monitorLooper) (draw : Z) (first : reply)
    (beats : list beat) : M outcome :=
  (startup rc draw first ;;
   if Interval rc <=? 0 then ret Panicked
   else NewTicker (Interval rc) ;; loop rc beats)%go.

(** The world a looper starts in: the goroutine is scheduled at [t0] with
    the box its struct points to. *)
Definition boot (rc : monitorLooper) (t0 : Z) : world :=
  {| clock := t0; box := FailBox rc; trace := [] |}.

Definition run (rc : monitorLooper) (t0 draw : Z) (first : reply)
    (beats : list beat) : outcome * world :=
  Go rc draw first beats (boot rc t0).

(** [go func() { rc.Go(); monitorFailed <- name }()]: the value the
    goroutine offers on the channel, if it gets that far. *)
Definition offered (name : string) (rc : monitorLooper) (t0 draw : Z)
    (first : reply) (beats : list beat) : option string :=
  match fst (run rc t0 draw first beats) with
  | Returned => Some name
  | Waiting | Panicked => None
  end.

(** ** [main]: the four loopers *)

(** The monitor implementations [main] instantiates (package
    [internal/monitors]). *)
Inductive source :=
| ReplicationProgressMonitor
| ReplicationStatusMonitor
| ThroughputMonitor
| ActiveTasksMonitor.

Definition sources : list source :=
  [ReplicationProgressMonitor; ReplicationStatusMonitor;
   ThroughputMonitor; ActiveTasksMonitor].

(** The [Interval] field of the looper built for each source
    (lines 47, 57, 67, 77). *)
Definition interval_of (s : source) : time.Duration :=
  match s with
  | ReplicationProgressMonitor => 5 * time.Second
  | ReplicationStatusMonitor => 10 * time.Minute
  | ThroughputMonitor => 5 * time.Second
  | ActiveTasksMonitor => 5 * time.Second
  end.

(** The string literal each goroutine sends on [monitorFailed]
    (lines 53, 63, 73, 83). *)
Definition literal_of (s : source) : string :=
  match s with
  | ReplicationProgressMonitor => "ReplicationProgressMonitor"
  | ReplicationStatusMonitor => "ReplicationStatusMonitor"
  | ThroughputMonitor => "ThroughputMonitor"
  | ActiveTasksMonitor => "ActiveTasksMonitor"
  end.

(** The looper [main] builds for a source at instant [t].  The result of
    [Name()] belongs to the absent package [internal/monitors] and is
    taken as a parameter. *)
Definition looper_of (name : source -> string) (t : Z) (s : source)
    : monitorLooper :=
  {| Interval := interval_of s;
     FailBox := utils.NewFailBox t failAfter;
     Chk := {| Name := name s |} |}.

(** ** Reading traces *)

(** The bookkeeping events of one poll answered by [r], when the box was
    [b] before and the retrieval returned at instant [t]. *)
Definition poll_events (rc : monitorLooper) (r : reply) (t : Z)
    (b : utils.FailBox) : list event :=
  [RetrieveCalled; RetrieveReturned (err r)] ++
  match err r with
  | Some reason =>
      [Logged (LogError (Name (Chk rc)) reason (utils.LastSuccess b));
       BoxFailure t]
  | None => [BoxSuccess t]
  end.

(** The box after one poll answered by [r] that returned at [t]. *)
Definition poll_box (r : reply) (t : Z) (b : utils.FailBox) : utils.FailBox :=
  match err r with
  | Some _ => utils.Failure t b
  | None => utils.Success t b
  end.

(** The events of one loop body, in the order the specification lists
    the steps of a tick: retrieve, record, evaluate, leave. *)
Definition tick_events (rc : monitorLooper) (r : reply) (t : Z)
    (b : utils.FailBox) : list event :=
  let b' := poll_box r t b in
  let x := utils.ShouldExit t b' in
  [Logged (LogTick (Name (Chk rc)))] ++
  poll_events rc r t b ++
  [BoxShouldExit t x] ++
  (if x
   then [Logged (LogExiting (Name (Chk rc)) failAfter (utils.LastSuccess b'))]
   else []).

(** The events of lines 147-156, for a looper scheduled at [t0]. *)
Definition startup_events (rc : monitorLooper) (t0 draw : Z) (first : reply)
    : list event :=
  let d := wrap_int (rand.Intn 15 draw * time.Second) in
  [Slept d; Logged (LogStartup (Name (Chk rc)) (rand.Intn 15 draw))] ++
  poll_events rc first (t0 + d + took first) (FailBox rc).

Definition is_call (e : event) : bool :=
  match e with RetrieveCalled => true | _ => false end.

Definition is_tick (e : event) : bool :=
  match e with TickReceived => true | _ => false end.

Definition is_exit_test (e : event) : bool :=
  match e with BoxShouldExit _ _ => true | _ => false end.

Definition calls (tr : list event) : nat := List.length (filter is_call tr).

Definition ticks (tr : list event) : nat := List.length (filter is_tick tr).

Definition exit_tests (tr : list event) : nat :=
  List.length (filter is_exit_test tr).

(** Whether a retrieval is outstanding after [tr], starting from [busy];
    [None] as soon as a call is entered while another is outstanding, or
    a return is seen with no call to match. *)
Fixpoint outstanding (busy : bool) (tr : list event) : option bool :=
  match tr with
  | [] => Some busy
  | RetrieveCalled :: tr' =>
      if busy then None else outstanding true tr'
  | RetrieveReturned _ :: tr' =>
      if busy then outstanding false tr' else None
  | _ :: tr' => outstanding busy tr'
  end.

(** No exit test of [tr] answered [true]. *)
Definition never_true (tr : list event) : bool :=
  forallb (fun e => match e with BoxShouldExit _ true => false | _ => true end)
          tr.

(** ** Sample inputs *)

Definition ok (d : time.Duration) : reply := {| took := d; err := None |}.

Definition ko (d : time.Duration) : reply :=
  {| took := d; err := Some "timeout"%string |}.

(** A naming of the monitors for the sample runs. *)
Definition plain_name (s : source) : string := literal_of s.

(** ** [main]: the goroutines and the fan-in channel *)

Module Supervisor.

(** Where a goroutine [go func() { rc.Go(); monitorFailed <- lit }()]
    stands. *)
Inductive goroutine :=
| InGo                      (* inside [rc.Go()] *)
| Sending (m : string)      (* blocked on [monitorFailed <- m] *)
| Finished.                 (* the send completed *)

(** Where [main] stands once the goroutines are started. *)
Inductive supervisor :=
| Blocked                   (* line 97: [m := <-monitorFailed] *)
| Received (m : string)     (* line 98 is next *)
| Left.                     (* [main] returned *)

Inductive process :=
| Alive
| Exited (code : Z).

Record state := mkState {
  loopers : source -> goroutine;
  main_at : supervisor;
  log : list logline;
  proc : process
}.

(** What can happen next; the scheduler and the environment choose. *)
Inductive label :=
| GoReturns (s : source) (t0 draw : Z) (first : reply) (beats : list beat)
    (* the looper of [s], run on these inputs, leaves [Go] *)
| Handoff (s : source)
    (* the unbuffered channel pairs the send of [s] with the receive *)
| MainReturns
    (* lines 98-100 *)
| ServerFails (reason : string).
    (* line 92: [ListenAndServe] returned; [log.Fatal] prints and
       calls [os.Exit(1)] *)

Definition source_eqb (a b : source) : bool :=
  match a, b with
  | ReplicationProgressMonitor, ReplicationProgressMonitor
  | ReplicationStatusMonitor, ReplicationStatusMonitor
  | ThroughputMonitor, ThroughputMonitor
  | ActiveTasksMonitor, ActiveTasksMonitor => true
  | _, _ => false
  end.

Definition set_looper (f : source -> goroutine) (s : source)
    (g : goroutine) : source -> goroutine :=
  fun s' => if source_eqb s s' then g else f s'.

Definition init : state :=
  {| loopers := fun _ => InGo; main_at := Blocked;
     log := []; proc := Alive |}.

(** One step; [None] when the step is not enabled.  [cfg] gives the
    looper [main] built for each source. *)
Definition fire (cfg : source -> monitorLooper) (l : label) (st : state)
    : option state :=
  match proc st with
  | Exited _ => None
  | Alive =>
      match l with
      | GoReturns s t0 draw first beats =>
          match loopers st s,
                offered (literal_of s) (cfg s) t0 draw first beats with
          | InGo, Some m =>
              Some {| loopers := set_looper (loopers st) s (Sending m);
                      main_at := main_at st;
                      log := log st; proc := Alive |}
          | _, _ => None
          end
      | Handoff s =>
          match loopers st s, main_at st with
          | Sending m, Blocked =>
              Some {| loopers := set_looper (loopers st) s Finished;
                      main_at := Received m;
                      log := log st; proc := Alive |}
          | _, _ => None
          end
      | MainReturns =>
          match main_at st with
          | Received m =>
              Some {| loopers := loopers st; main_at := Left;
                      log := log st ++ [LogDied m]; proc := Exited 0 |}
          | _ => None
          end
      | ServerFails reason =>
          Some {| loopers := loopers st; main_at := main_at st;
                  log := log st ++ [LogFatal reason]; proc := Exited 1 |}
      end
  end.

(** A schedule, first step first. *)
Fixpoint exec (cfg : source -> monitorLooper) (ls : list label)
    (st : state) : option state :=
  match ls with
  | [] => Some st
  | l :: ls' =>
      match fire cfg l st with
      | Some st' => exec cfg ls' st'
      | None => None
      end
  end.

(** The sources named by the "A monitor died" lines of a log. *)
Fixpoint died (l : list logline) : list string :=
  match l with
  | [] => []
  | LogDied m :: l' => m :: died l'
  | _ :: l' => died l'
  end.

(** What holds in every state the program can be in. *)
Record consistent (st : state) : Prop := {
  sends_literal :
    forall s m, loopers st s = Sending m -> m = literal_of s;
  received_once :
    match main_at st with
    | Blocked =>
        (forall s, loopers st s <> Finished) /\
        died (log st) = [] /\ proc st <> Exited 0
    | Received m =>
        (exists s, m = literal_of s /\ loopers st s = Finished /\
                   forall s', loopers st s' = Finished -> s' = s) /\
        died (log st) = [] /\ proc st <> Exited 0
    | Left =>
        (exists s, died (log st) = [literal_of s] /\
                   loopers st s = Finished /\
                   forall s', loopers st s' = Finished -> s' = s) /\
        proc st = Exited 0
    end
}.

End Supervisor.

(** The configuration of [main], with the boxes created at instant [t]. *)
Definition main_cfg (name : source -> string) (t : Z)
    : source -> monitorLooper :=
  looper_of name t.

(** ** The first poll as the specification describes it *)

(** Section 4.2 of the specification on the first poll: whenever the exit
    test already holds once the first poll is recorded, the loop has
    returned and no ticker-driven poll was made. *)
Definition first_poll_can_exit : Prop :=
  forall (rc : monitorLooper) (t0 draw : Z) (first : reply)
         (beats : list beat),
    0 < Interval rc ->
    let w1 := snd (startup rc draw first (boot rc t0)) in
    utils.ShouldExit (clock w1) (box w1) = true ->
    let r := run rc t0 draw first beats in
    fst r = Returned /\ ticks (trace (snd r)) = 0%nat.

(** Section 6 of the specification on the parameters of one source. *)
Definition well_configured (rc : monitorLooper) : bool :=
  (0 <? Interval rc) && (0 <? utils.threshold (FailBox rc)) &&
  (Interval rc <? utils.threshold (FailBox rc)).

(** ** Auxiliary readings used in the statements *)

(** The world in which the body of a beat starts: the tick has arrived. *)
Definition arrived (b : beat) (w : world) : world :=
  {| clock := clock w + wait b; box := box w;
     trace := trace w ++ [TickReceived] |}.

(** The world of a looper when it reaches [for range ticker.C]. *)
Definition ticking (rc : monitorLooper) (w : world) : world :=
  {| clock := clock w; box := box w;
     trace := trace w ++ [TickerStarted (Interval rc)] |}.

(** The retrieval of this beat returns [nil]. *)
Definition succeeds (b : beat) : bool :=
  match err (answer b) with None => true | Some _ => false end.

(** Calls and returns of [Retrieve] alternate, starting with a call. *)
Definition sequential (tr : list event) : bool :=
  match outstanding false tr with Some _ => true | None => false end.

(** A looper whose threshold is misconfigured to zero. *)
Definition hasty : monitorLooper :=
  {| Interval := 5 * time.Second;
     FailBox := utils.NewFailBox 0 0;
     Chk := {| Name := "hasty" |} |}.

(** ** Further readings of runs *)

(** The retrieval of this beat returns an error. *)
Definition fails (b : beat) : bool := negb (succeeds b).


Definition records_success (e : event) : bool :=
  match e with BoxSuccess _ => true | _ => false end.

Definition records_failure (e : event) : bool :=
  match e with BoxFailure _ => true | _ => false end.

Definition is_error_line (e : event) : bool :=
  match e with Logged (LogError _ _ _) => true | _ => false end.

Definition is_ticker (e : event) : bool :=
  match e with TickerStarted _ => true | _ => false end.

Definition count (p : event -> bool) (tr : list event) : nat :=
  List.length (filter p tr).



(** The instant the exit test of a box measures from. *)
Definition reference (b : utils.FailBox) : Z :=
  match utils.lastSuccess b with
  | Some s => s
  | None => utils.created b
  end.

(** The clock after all of [beats] have been polled, starting at [t]. *)
Definition clock_after (t : Z) (beats : list beat) : Z :=
  fold_left (fun t b => t + wait b + took (answer b)) beats t.

(** The index of the tick at which a loop entered at instant [t], with
    threshold [th] and the last success (or the creation) at [ref], must
    leave: the first tick whose retrieval returns more than [th] after the
    latest success so far.  Plain arithmetic on the beats, with no box and
    no trace. *)
Fixpoint exit_index (th ref t : Z) (beats : list beat) : option nat :=
  match beats with
  | [] => None
  | b :: rest =>
      let t' := t + wait b + took (answer b) in
      let ref' := if succeeds b then t' else ref in
      if th <? t' - ref' then Some 0%nat
      else option_map S (exit_index th ref' t' rest)
  end.

(** The same looper with another threshold in its box. *)
Definition with_threshold (th : time.Duration) (rc : monitorLooper)
    : monitorLooper :=
  {| Interval := Interval rc;
     FailBox := {| utils.created := utils.created (FailBox rc);
                   utils.threshold := th;
                   utils.lastSuccess := utils.lastSuccess (FailBox rc);
                   utils.lastFailure := utils.lastFailure (FailBox rc) |};
     Chk := Chk rc |}.

(** The steps of a schedule in which the looper of a source leaves [Go],
    with the inputs of the run. *)
Definition leaves (s : source) (t0 draw : Z) (first : reply)
    (beats : list beat) (ls : list Supervisor.label) : Prop :=
  In (Supervisor.GoReturns s t0 draw first beats) ls.

(** The books of a looper: every retrieval is recorded once, as a success
    or as a failure, and a failure is logged once. *)
Definition balanced (tr : list event) : Prop :=
  (count records_success tr + count records_failure tr)%nat = calls tr /\
  count is_error_line tr = count records_failure tr /\
  calls tr = S (ticks tr) /\
  exit_tests tr = ticks tr.


(** The instant the exit tests of a looper measure from once the startup
    poll answered by [first] has returned at [t1]. *)
Definition reference_after (rc : monitorLooper) (first : reply) (t1 : Z) : Z :=
  match err first with
  | None => t1
  | Some _ => reference (FailBox rc)
  end.

(** Bookkeeping over a schedule: a looper that is no longer inside [Go]
    left it in a step of the schedule whose run returned, and the log is
    written only by the step that ends the process. *)
Definition accounted (cfg : source -> monitorLooper)
    (done : list Supervisor.label) (st : Supervisor.state) : Prop :=
  (forall s,
     Supervisor.loopers st s <> Supervisor.InGo ->
     exists t0 draw first beats,
       leaves s t0 draw first beats done /\
       fst (run (cfg s) t0 draw first beats) = Returned) /\
  match Supervisor.proc st with
  | Supervisor.Alive => Supervisor.log st = []
  | Supervisor.Exited c =>
      (c = 0 /\ exists m, Supervisor.log st = [LogDied m]) \/
      (c = 1 /\ exists reason, Supervisor.log st = [LogFatal reason])
  end.

(** * Properties *)

(** ** Running the monadic code *)

Ltac run_go :=
  cbv [bind ret emit elapse now read_box update_box Sleep Printf Retrieve
       LastSuccess Success Failure ShouldExit NewTicker receive_tick];
  cbn [clock box trace fst snd].

Ltac flatten_trace :=
  repeat rewrite <- app_assoc; cbn [app].

Lemma poll_run (rc : monitorLooper) (r : reply) (w : world) :
  poll rc r w =
  (tt, {| clock := clock w + took r;
          box := poll_box r (clock w + took r) (box w);
          trace := trace w ++ poll_events rc r (clock w + took r) (box w) |}).
Proof.
  unfold poll, poll_box, poll_events. run_go.
  destruct (err r) as [reason|]; cbn [clock box trace];
    flatten_trace; reflexivity.
Qed.

Lemma startup_run (rc : monitorLooper) (draw : Z) (first : reply) (w : world) :
  let d := wrap_int (rand.Intn 15 draw * time.Second) in
  let t := clock w + d + took first in
  startup rc draw first w =
  (tt, {| clock := t;
          box := poll_box first t (box w);
          trace := trace w ++
                   [Slept d;
                    Logged (LogStartup (Name (Chk rc)) (rand.Intn 15 draw))] ++
                   poll_events rc first t (box w) |}).
Proof.
  intros d t. unfold startup. run_go.
  rewrite poll_run. cbn [clock box trace].
  flatten_trace. reflexivity.
Qed.

Lemma tick_run (rc : monitorLooper) (r : reply) (w : world) :
  let t := clock w + took r in
  let b' := poll_box r t (box w) in
  tick rc r w =
  (utils.ShouldExit t b',
   {| clock := t; box := b';
      trace := trace w ++ tick_events rc r t (box w) |}).
Proof.
  intros t b'. unfold tick, tick_events. run_go.
  rewrite poll_run. cbn [clock box trace].
  fold t. fold b'.
  destruct (utils.ShouldExit t b'); cbn [clock box trace];
    flatten_trace; reflexivity.
Qed.

Lemma loop_nil (rc : monitorLooper) (w : world) :
  loop rc [] w = (Waiting, w).
Proof. reflexivity. Qed.

Lemma loop_cons (rc : monitorLooper) (b : beat) (rest : list beat) (w : world) :
  loop rc (b :: rest) w =
  let (stop, w') := tick rc (answer b) (arrived b w) in
  if stop then (Returned, w') else loop rc rest w'.
Proof.
  cbn [loop]. run_go. fold (arrived b w).
  destruct (tick rc (answer b) (arrived b w)) as [stop w'].
  destruct stop; reflexivity.
Qed.

Lemma Go_run (rc : monitorLooper) (draw : Z) (first : reply)
    (beats : list beat) (w : world) :
  let w1 := snd (startup rc draw first w) in
  Go rc draw first beats w =
  if Interval rc <=? 0 then (Panicked, w1)
  else loop rc beats (ticking rc w1).
Proof.
  intros w1. unfold Go. run_go.
  subst w1. destruct (startup rc draw first w) as [[] w1]. cbn [snd].
  destruct (Interval rc <=? 0); reflexivity.
Qed.

(** ** Sample runs *)

Example run_healthy :
  fst (run (looper_of plain_name 0 ThroughputMonitor) 0 7 (ok 1)
         [mkBeat (5 * time.Second) (ok 1); mkBeat (5 * time.Second) (ok 1)])
  = Waiting.
Proof. reflexivity. Qed.

Example run_dead :
  fst (run (looper_of plain_name 0 ThroughputMonitor) 0 7 (ok 1)
         [mkBeat (4 * time.Minute) (ko 1); mkBeat (2 * time.Minute) (ko 1);
          mkBeat (5 * time.Second) (ok 1)])
  = Returned.
Proof. vm_compute. reflexivity. Qed.

Example run_dead_trace :
  trace (snd (run (looper_of plain_name 0 ThroughputMonitor) 0 7 (ok 1)
         [mkBeat (6 * time.Minute) (ko 1)]))
  = [Slept 7000000000;
     Logged (LogStartup "ThroughputMonitor" 7);
     RetrieveCalled; RetrieveReturned None; BoxSuccess 7000000001;
     TickerStarted 5000000000;
     TickReceived;
     Logged (LogTick "ThroughputMonitor");
     RetrieveCalled; RetrieveReturned (Some "timeout"%string);
     Logged (LogError "ThroughputMonitor" "timeout" (Some 7000000001));
     BoxFailure 367000000002;
     BoxShouldExit 367000000002 true;
     Logged (LogExiting "ThroughputMonitor" 300000000000 (Some 7000000001))].
Proof. vm_compute. reflexivity. Qed.

(** ** The failure window *)

Section FailureWindow.

Import utils.

Lemma feed_app (b : FailBox) (cs ds : list call) :
  feed b (cs ++ ds) = feed (feed b cs) ds.
Proof. unfold feed. apply fold_left_app. Qed.

Lemma feed_threshold (cs : list call) :
  forall b, threshold (feed b cs) = threshold b.
Proof.
  induction cs as [|c cs IH]; intros b; [reflexivity|].
  cbn [feed fold_left]. fold (feed (apply_call b c) cs).
  rewrite IH. destruct c; reflexivity.
Qed.

Lemma feed_created (cs : list call) :
  forall b, created (feed b cs) = created b.
Proof.
  induction cs as [|c cs IH]; intros b; [reflexivity|].
  cbn [feed fold_left]. fold (feed (apply_call b c) cs).
  rewrite IH. destruct c; reflexivity.
Qed.

Lemma feed_lastSuccess (cs : list call) :
  forall b, lastSuccess (feed b cs) = last_success_of cs (lastSuccess b).
Proof.
  induction cs as [|c cs IH]; intros b; [reflexivity|].
  cbn [feed fold_left]. fold (feed (apply_call b c) cs).
  rewrite IH. destruct c; reflexivity.
Qed.

Lemma failures_keep_last (fs : list call) (acc : option Z) :
  forallb is_failure fs = true -> last_success_of fs acc = acc.
Proof.
  induction fs as [|c fs IH]; intros H; [reflexivity|].
  cbn [forallb] in H. apply andb_true_iff in H as [Hc Hfs].
  destruct c; [discriminate|]. cbn [last_success_of]. auto.
Qed.

Lemma failures_as_calls (times : list Z) :
  forallb is_failure (map recordFailure times) = true.
Proof. induction times; [reflexivity | assumption]. Qed.

(** The exit test only looks further back as the clock advances. *)
Lemma ShouldExit_mono (b : FailBox) (t t' : Z) :
  t <= t' -> ShouldExit t b = true -> ShouldExit t' b = true.
Proof.
  unfold ShouldExit. intros Hle.
  destruct (lastSuccess b); rewrite !Z.ltb_lt; lia.
Qed.

Lemma ShouldExit_after_Success (b : FailBox) (t : Z) :
  ShouldExit t (Success t b) = (threshold b <? 0).
Proof.
  unfold ShouldExit, Success. cbn [lastSuccess threshold].
  rewrite Z.sub_diag. reflexivity.
Qed.

End FailureWindow.

(** C1: whatever sequence of recordSuccess/recordFailure calls a window
    created at [c] with threshold [th] has been fed, [shouldExit(now)] is
    true exactly when the last recorded success lies more than [th] before
    [now] or, no success having been recorded, the creation does; and once
    true it remains true at any later instant as long as only failures are
    recorded. *)
Theorem shouldExit_iff_elapsed_exceeds_threshold
    (c th : Z) (cs fs : list utils.call) (t later : Z)
    (Hclock : t <= later)
    (Hfs : forallb utils.is_failure fs = true) :
  let b := utils.feed (utils.NewFailBox c th) cs in
  utils.lastSuccess b = utils.last_success_of cs None /\
  (utils.ShouldExit t b = true <->
     (exists s, utils.lastSuccess b = Some s /\ t - s > th) \/
     (utils.lastSuccess b = None /\ t - c > th)) /\
  (utils.ShouldExit t b = true ->
   utils.ShouldExit later (utils.feed b fs) = true).
Proof.
  intros b.
  assert (Hth : utils.threshold b = th)
    by (unfold b; rewrite feed_threshold; reflexivity).
  assert (Hc : utils.created b = c)
    by (unfold b; rewrite feed_created; reflexivity).
  split; [| split].
  - unfold b. rewrite feed_lastSuccess. reflexivity.
  - unfold utils.ShouldExit. rewrite Hth, Hc.
    destruct (utils.lastSuccess b) as [s|]; rewrite Z.ltb_lt; split.
    + intros H. left. exists s. split; [reflexivity | lia].
    + intros [[s' [Hs H]] | [Hs _]]; [|discriminate].
      injection Hs as <-. lia.
    + intros H. right. split; [reflexivity | lia].
    + intros [[s' [Hs _]] | [_ H]]; [discriminate | lia].
  - intros H. apply (ShouldExit_mono _ t later Hclock).
    unfold utils.ShouldExit in *.
    rewrite feed_lastSuccess, feed_threshold, feed_created.
    rewrite (failures_keep_last fs _ Hfs). exact H.
Qed.

Lemma shouldExit_iff_elapsed_exceeds_threshold_witness :
  let cs := [utils.recordFailure 1; utils.recordSuccess 2;
             utils.recordFailure 3] in
  let fs := [utils.recordFailure 9; utils.recordFailure 10] in
  let b := utils.feed (utils.NewFailBox 0 5) cs in
  utils.ShouldExit 8 b = true /\
  utils.ShouldExit 7 b = false /\
  utils.ShouldExit 10 (utils.feed b fs) = true.
Proof.
  intros cs fs b.
  split; [reflexivity | split; [reflexivity |]].
  apply (shouldExit_iff_elapsed_exceeds_threshold 0 5 cs fs 8 10);
    [lia | reflexivity | reflexivity].
Defined.

(** C4: after any number of consecutive recordFailure calls, a
    recordSuccess at [t] makes [shouldExit(t)] false, for every positive
    threshold and whatever it answered just before; in the loop, a tick
    whose retrieval succeeded evaluates the exit test to false. *)
Theorem success_resets_exit_clock
    (b : utils.FailBox) (times : list Z) (t : Z)
    (rc : monitorLooper) (r : reply) (w : world)
    (Hth : 0 < utils.threshold b)
    (Hbox : box w = utils.feed b (map utils.recordFailure times))
    (Hok : err r = None) :
  utils.ShouldExit t
    (utils.Success t (utils.feed b (map utils.recordFailure times))) = false /\
  fst (tick rc r w) = false.
Proof.
  split.
  - rewrite ShouldExit_after_Success, feed_threshold.
    apply Z.ltb_ge. lia.
  - rewrite tick_run. cbn [fst]. unfold poll_box. rewrite Hok.
    rewrite ShouldExit_after_Success, Hbox, feed_threshold.
    apply Z.ltb_ge. lia.
Qed.

Lemma success_resets_exit_clock_witness :
  let b := utils.NewFailBox 0 5 in
  let times := [1; 2; 3; 4; 5; 6; 7] in
  let late := utils.feed b (map utils.recordFailure times) in
  let w := {| clock := 7; box := late; trace := [] |} in
  utils.ShouldExit 7 late = true /\
  utils.ShouldExit 7 (utils.Success 7 late) = false /\
  fst (tick hasty (ok 0) w) = false.
Proof.
  intros b times late w.
  split; [reflexivity |].
  apply (success_resets_exit_clock b times 7 hasty (ok 0) w);
    [reflexivity | reflexivity | reflexivity].
Defined.

(** ** Counting in traces *)

Lemma calls_app (p q : list event) : calls (p ++ q) = (calls p + calls q)%nat.
Proof. unfold calls. rewrite filter_app, length_app. reflexivity. Qed.

Lemma ticks_app (p q : list event) : ticks (p ++ q) = (ticks p + ticks q)%nat.
Proof. unfold ticks. rewrite filter_app, length_app. reflexivity. Qed.

Lemma exit_tests_app (p q : list event) :
  exit_tests (p ++ q) = (exit_tests p + exit_tests q)%nat.
Proof. unfold exit_tests. rewrite filter_app, length_app. reflexivity. Qed.

Lemma never_true_app (p q : list event) :
  never_true (p ++ q) = never_true p && never_true q.
Proof. unfold never_true. apply forallb_app. Qed.

Lemma outstanding_app (p q : list event) :
  forall busy,
    outstanding busy (p ++ q) =
    match outstanding busy p with
    | Some busy' => outstanding busy' q
    | None => None
    end.
Proof.
  induction p as [|e p IH]; intros busy; [reflexivity|].
  destruct e; cbn [app outstanding]; try apply IH;
    destruct busy; auto.
Qed.

(** A trace that respects the alternation does so at every prefix. *)
Lemma sequential_prefix (p q : list event) :
  sequential (p ++ q) = true -> sequential p = true.
Proof.
  unfold sequential. rewrite outstanding_app.
  destruct (outstanding false p); [reflexivity | discriminate].
Qed.

Lemma poll_events_counts (rc : monitorLooper) (r : reply) (t : Z)
    (b : utils.FailBox) :
  calls (poll_events rc r t b) = 1%nat /\
  ticks (poll_events rc r t b) = 0%nat /\
  exit_tests (poll_events rc r t b) = 0%nat /\
  never_true (poll_events rc r t b) = true /\
  outstanding false (poll_events rc r t b) = Some false.
Proof.
  unfold poll_events. destruct (err r); repeat split; reflexivity.
Qed.

Lemma tick_events_counts (rc : monitorLooper) (r : reply) (t : Z)
    (b : utils.FailBox) :
  calls (tick_events rc r t b) = 1%nat /\
  ticks (tick_events rc r t b) = 0%nat /\
  exit_tests (tick_events rc r t b) = 1%nat /\
  never_true (tick_events rc r t b)
    = negb (utils.ShouldExit t (poll_box r t b)) /\
  outstanding false (tick_events rc r t b) = Some false.
Proof.
  unfold tick_events, poll_events.
  destruct (err r), (utils.ShouldExit t (poll_box r t b));
    repeat split; reflexivity.
Qed.

(** ** The loop, one beat at a time *)

Lemma poll_box_threshold (r : reply) (t : Z) (b : utils.FailBox) :
  utils.threshold (poll_box r t b) = utils.threshold b.
Proof. unfold poll_box. destruct (err r); reflexivity. Qed.

Lemma after_tick_received (es : list event) :
  calls (TickReceived :: es) = calls es /\
  ticks (TickReceived :: es) = S (ticks es) /\
  exit_tests (TickReceived :: es) = exit_tests es /\
  never_true (TickReceived :: es) = never_true es /\
  outstanding false (TickReceived :: es) = outstanding false es.
Proof. repeat split; reflexivity. Qed.

(** What every run of the loop preserves: each body makes one call and one
    exit test per tick received, and calls never overlap. *)
Lemma loop_accounting (rc : monitorLooper) (beats : list beat) :
  forall w,
    let r := loop rc beats w in
    exists more,
      trace (snd r) = trace w ++ more /\
      calls more = ticks more /\
      exit_tests more = ticks more /\
      (ticks more <= List.length beats)%nat /\
      outstanding false more = Some false /\
      match fst r with
      | Returned => (1 <= ticks more)%nat /\ never_true more = false
      | Waiting => ticks more = List.length beats /\ never_true more = true
      | Panicked => False
      end.
Proof.
  induction beats as [|b rest IH]; intros w r.
  - exists []. subst r. rewrite loop_nil. cbn [fst snd].
    rewrite app_nil_r. repeat split; reflexivity.
  - subst r. rewrite loop_cons, tick_run.
    set (t := clock (arrived b w) + took (answer b)).
    set (es := tick_events rc (answer b) t (box (arrived b w))).
    set (b' := poll_box (answer b) t (box (arrived b w))).
    set (w' := {| clock := t; box := b'; trace := _ |}).
    destruct (tick_events_counts rc (answer b) t (box (arrived b w)))
      as (Hc & Ht & He & Hn & Ho).
    fold b' in Hn. fold es in Hc, Ht, He, Hn, Ho.
    destruct (utils.ShouldExit t b') eqn:Hx; cbn [negb] in Hn.
    + exists (TickReceived :: es).
      destruct (after_tick_received es) as (Ac & At & Ae & An & Ao).
      rewrite Ac, At, Ae, An, Ao, Hc, Ht, He, Hn, Ho.
      cbn [fst snd]. subst w'. cbn [trace arrived List.length].
      rewrite <- app_assoc.
      repeat split; lia.
    + destruct (IH w') as (more & Htr & Hcm & Hem & Hlen & Hom & Hout).
      remember (fst (loop rc rest w')) as o eqn:Ho'. clear Ho'.
      exists (TickReceived :: es ++ more).
      destruct (after_tick_received (es ++ more)) as (Ac & At & Ae & An & Ao).
      rewrite Ac, At, Ae, An, Ao.
      rewrite calls_app, ticks_app, exit_tests_app, never_true_app,
        outstanding_app, Hc, Ht, He, Hn, Ho, Hom, Htr.
      subst w'. cbn [trace arrived List.length andb].
      repeat rewrite <- app_assoc.
      split; [reflexivity|].
      repeat split; try lia.
      destruct o; intuition lia.
Qed.

Lemma loop_healthy (rc : monitorLooper) (beats : list beat) :
  forall w,
    forallb succeeds beats = true ->
    0 <= utils.threshold (box w) ->
    fst (loop rc beats w) = Waiting.
Proof.
  induction beats as [|b rest IH]; intros w Hall Hth; [reflexivity|].
  cbn [forallb] in Hall. apply andb_true_iff in Hall as [Hb Hrest].
  unfold succeeds in Hb.
  rewrite loop_cons, tick_run. unfold poll_box.
  destruct (err (answer b)); [discriminate|].
  rewrite ShouldExit_after_Success. cbn [arrived box].
  replace (utils.threshold (box w) <? 0) with false
    by (symmetry; apply Z.ltb_ge; exact Hth).
  apply IH; [exact Hrest | exact Hth].
Qed.

(** ** Whole runs of [Go] *)

Lemma startup_boot (rc : monitorLooper) (t0 draw : Z) (first : reply) :
  let d := wrap_int (rand.Intn 15 draw * time.Second) in
  let t := t0 + d + took first in
  snd (startup rc draw first (boot rc t0)) =
  {| clock := t; box := poll_box first t (FailBox rc);
     trace := startup_events rc t0 draw first |}.
Proof.
  intros d t. rewrite startup_run. reflexivity.
Qed.

Lemma startup_events_counts (rc : monitorLooper) (t0 draw : Z)
    (first : reply) :
  calls (startup_events rc t0 draw first) = 1%nat /\
  ticks (startup_events rc t0 draw first) = 0%nat /\
  exit_tests (startup_events rc t0 draw first) = 0%nat /\
  never_true (startup_events rc t0 draw first) = true /\
  outstanding false (startup_events rc t0 draw first) = Some false.
Proof.
  unfold startup_events, poll_events.
  destruct (err first); repeat split; reflexivity.
Qed.

Lemma run_unfold (rc : monitorLooper) (t0 draw : Z) (first : reply)
    (beats : list beat) :
  let w1 := snd (startup rc draw first (boot rc t0)) in
  run rc t0 draw first beats =
  if Interval rc <=? 0 then (Panicked, w1)
  else loop rc beats (ticking rc w1).
Proof. intros w1. unfold run. apply Go_run. Qed.

Lemma run_accounting (rc : monitorLooper) (t0 draw : Z) (first : reply)
    (beats : list beat) :
  let r := run rc t0 draw first beats in
  let head := startup_events rc t0 draw first in
  (Interval rc <= 0 /\ fst r = Panicked /\ trace (snd r) = head) \/
  (0 < Interval rc /\
   exists more,
     trace (snd r) = head ++ TickerStarted (Interval rc) :: more /\
     calls more = ticks more /\
     exit_tests more = ticks more /\
     (ticks more <= List.length beats)%nat /\
     outstanding false more = Some false /\
     match fst r with
     | Returned => (1 <= ticks more)%nat /\ never_true more = false
     | Waiting => ticks more = List.length beats /\ never_true more = true
     | Panicked => False
     end).
Proof.
  intros r head. subst r. rewrite run_unfold.
  destruct (Interval rc <=? 0) eqn:Hi.
  - left. apply Z.leb_le in Hi. cbn [fst snd].
    rewrite startup_boot. split; [exact Hi | split; reflexivity].
  - right. apply Z.leb_gt in Hi. split; [exact Hi|].
    destruct (loop_accounting rc beats
                (ticking rc (snd (startup rc draw first (boot rc t0)))))
      as (more & Htr & Hrest).
    exists more. split; [| exact Hrest].
    rewrite Htr, startup_boot. cbn [ticking trace].
    rewrite <- app_assoc. reflexivity.
Qed.

Lemma jitter_range (draw : Z) :
  let d := wrap_int (rand.Intn 15 draw * time.Second) in
  d = (draw mod 15) * time.Second /\ 0 <= d <= 14 * time.Second.
Proof.
  intros d. subst d. unfold rand.Intn, wrap_int.
  pose proof (Z.mod_pos_bound draw 15 ltac:(lia)) as Hm.
  change time.Second with 1000000000.
  assert (H : ((draw mod 15) * 1000000000 + 2 ^ 63) mod 2 ^ 64
              = (draw mod 15) * 1000000000 + 2 ^ 63).
  { apply Z.mod_small. change (2 ^ 63) with 9223372036854775808.
    change (2 ^ 64) with 18446744073709551616. lia. }
  rewrite H. lia.
Qed.

(** ** The polling loop *)

(** C7: in every run of [Go] the startup pause [d] is a whole number of
    seconds with [0 <= d < 15 s]; the goroutine sleeps for exactly [d]
    before anything else, and the first [Retrieve] is entered when the
    clock has advanced by [d] and nothing more. *)
Theorem startup_delay_below_jitter_bound
    (rc : monitorLooper) (t0 draw : Z) (first : reply) (beats : list beat) :
  let d := wrap_int (rand.Intn 15 draw * time.Second) in
  d = (draw mod 15) * time.Second /\
  0 <= d < 15 * time.Second /\
  (exists rest,
     trace (snd (run rc t0 draw first beats)) =
     Slept d :: Logged (LogStartup (Name (Chk rc)) (draw mod 15))
       :: RetrieveCalled :: RetrieveReturned (err first) :: rest) /\
  clock (snd (Sleep d (boot rc t0))) = t0 + d /\
  clock (snd (startup rc draw first (boot rc t0))) = t0 + d + took first.
Proof.
  intros d. destruct (jitter_range draw) as [Hd Hr]. fold d in Hd, Hr.
  split; [exact Hd |].
  split; [change time.Second with 1000000000 in *; lia |].
  split; [| split; [reflexivity | rewrite startup_boot; reflexivity]].
  destruct (run_accounting rc t0 draw first beats)
    as [(_ & _ & Htr) | (_ & more & Htr & _)];
    rewrite Htr; unfold startup_events, poll_events; fold d;
    cbn [app]; eexists; reflexivity.
Qed.

(** C5: the body of a ticker-driven iteration logs the tick, calls
    [Retrieve] exactly once, records the result ([Success], or the error
    line followed by [Failure]), then evaluates [ShouldExit]; [Go] returns
    there when the answer is true and goes on to the next tick when it is
    false. *)
Theorem tick_steps_in_order
    (rc : monitorLooper) (b : beat) (rest : list beat) (w : world) :
  let w0 := arrived b w in
  let t := clock w0 + took (answer b) in
  let recorded := poll_box (answer b) t (box w0) in
  let x := utils.ShouldExit t recorded in
  let steps :=
    Logged (LogTick (Name (Chk rc)))
    :: RetrieveCalled
    :: RetrieveReturned (err (answer b))
    :: match err (answer b) with
       | Some reason =>
           [Logged (LogError (Name (Chk rc)) reason
                      (utils.LastSuccess (box w0)));
            BoxFailure t]
       | None => [BoxSuccess t]
       end
    ++ BoxShouldExit t x
    :: (if x
        then [Logged (LogExiting (Name (Chk rc)) failAfter
                        (utils.LastSuccess recorded))]
        else []) in
  let w' := {| clock := t; box := recorded; trace := trace w0 ++ steps |} in
  tick rc (answer b) w0 = (x, w') /\
  calls steps = 1%nat /\
  exit_tests steps = 1%nat /\
  loop rc (b :: rest) w = if x then (Returned, w') else loop rc rest w'.
Proof.
  intros w0 t recorded x steps w'.
  assert (Hsteps : steps = tick_events rc (answer b) t (box w0)).
  { unfold steps, tick_events, poll_events. fold recorded. fold x.
    destruct (err (answer b)); reflexivity. }
  assert (Htick : tick rc (answer b) w0 = (x, w')).
  { rewrite tick_run. unfold w'. rewrite Hsteps. reflexivity. }
  destruct (tick_events_counts rc (answer b) t (box w0))
    as (Hc & _ & He & _).
  repeat split.
  - exact Htick.
  - rewrite Hsteps. exact Hc.
  - rewrite Hsteps. exact He.
  - rewrite loop_cons. fold w0. rewrite Htick. reflexivity.
Qed.

(** C8: in every run of [Go], at every point of its trace, no [Retrieve]
    is entered while an earlier one has not returned. *)
Theorem retrievals_never_overlap
    (rc : monitorLooper) (t0 draw : Z) (first : reply) (beats : list beat)
    (n : nat) :
  sequential (firstn n (trace (snd (run rc t0 draw first beats)))) = true.
Proof.
  apply (sequential_prefix _ (skipn n (trace (snd (run rc t0 draw first beats))))).
  rewrite firstn_skipn. unfold sequential.
  destruct (startup_events_counts rc t0 draw first) as (_ & _ & _ & _ & Hs).
  destruct (run_accounting rc t0 draw first beats)
    as [(_ & _ & Htr) | (_ & more & Htr & _ & _ & _ & Hm & _)];
    rewrite Htr.
  - rewrite Hs. reflexivity.
  - rewrite outstanding_app, Hs. cbn [outstanding]. rewrite Hm. reflexivity.
Qed.

(** C2: when every ticker-driven retrieval returns no error, [Go] run
    over any number of ticks is still in its loop: each of the ticks was
    polled, every evaluation of [ShouldExit] answered false, and the
    goroutine never reaches its send on [monitorFailed], so no schedule of
    the supervisor contains a step in which this run leaves [Go].  The
    interval is positive (otherwise [time.NewTicker] panics) and the
    threshold is not negative. *)
Theorem healthy_source_never_exits
    (rc : monitorLooper) (t0 draw : Z) (first : reply) (beats : list beat)
    (Hinterval : 0 < Interval rc)
    (Hthreshold : 0 <= utils.threshold (FailBox rc))
    (Hhealthy : forallb succeeds beats = true) :
  let r := run rc t0 draw first beats in
  fst r = Waiting /\
  ticks (trace (snd r)) = List.length beats /\
  exit_tests (trace (snd r)) = List.length beats /\
  never_true (trace (snd r)) = true /\
  (forall name, offered name rc t0 draw first beats = None) /\
  (forall cfg s st,
     cfg s = rc ->
     Supervisor.fire cfg (Supervisor.GoReturns s t0 draw first beats) st
     = None).
Proof.
  intros r.
  assert (Hw : fst r = Waiting).
  { subst r. rewrite run_unfold.
    replace (Interval rc <=? 0) with false
      by (symmetry; apply Z.leb_gt; exact Hinterval).
    apply loop_healthy; [exact Hhealthy |].
    rewrite startup_boot. cbn [ticking box].
    rewrite poll_box_threshold. exact Hthreshold. }
  assert (Hoff : forall name, offered name rc t0 draw first beats = None).
  { intros name. unfold offered. fold r. rewrite Hw. reflexivity. }
  destruct (startup_events_counts rc t0 draw first)
    as (_ & Ht & He & Hn & _).
  destruct (run_accounting rc t0 draw first beats)
    as [(Hneg & _) | (_ & more & Htr & _ & Hem & _ & _ & Hout)]; [lia |].
  fold r in Htr, Hout. rewrite Hw in Hout. destruct Hout as [Hlen Hnt].
  rewrite Htr.
  rewrite ticks_app, exit_tests_app, never_true_app, Ht, He, Hn.
  repeat split.
  - exact Hw.
  - exact Hlen.
  - change (exit_tests (TickerStarted (Interval rc) :: more))
      with (exit_tests more). lia.
  - exact Hnt.
  - exact Hoff.
  - intros cfg s st Hcfg. unfold Supervisor.fire.
    rewrite Hcfg, Hoff.
    destruct (Supervisor.proc st); [| reflexivity].
    destruct (Supervisor.loopers st s); reflexivity.
Qed.

Lemma healthy_source_never_exits_witness :
  let rc := looper_of plain_name 0 ThroughputMonitor in
  let beats := [mkBeat (5 * time.Second) (ok time.Second);
                mkBeat (5 * time.Second) (ok time.Second);
                mkBeat (5 * time.Second) (ok time.Second)] in
  fst (run rc 0 7 (ko time.Second) beats) = Waiting /\
  ticks (trace (snd (run rc 0 7 (ko time.Second) beats))) = 3%nat.
Proof.
  intros rc beats.
  destruct (healthy_source_never_exits rc 0 7 (ko time.Second) beats)
    as (Hw & Ht & _);
    [reflexivity | discriminate | reflexivity |].
  split; [exact Hw | exact Ht].
Defined.

(** C3, as the specification states it, fails: with a threshold of zero
    and a first poll that fails, the exit test holds as soon as the first
    poll is recorded, yet [Go] goes on to wait for the ticker and polls
    again. *)
Lemma first_poll_does_not_exit :
  let w1 := snd (startup hasty 3 (ko 1) (boot hasty 0)) in
  let r := run hasty 0 3 (ko 1) [mkBeat (5 * time.Second) (ko 1)] in
  utils.ShouldExit (clock w1) (box w1) = true /\
  exit_tests (trace w1) = 0%nat /\
  fst r = Returned /\
  ticks (trace (snd r)) = 1%nat /\
  ~ first_poll_can_exit.
Proof.
  cbv zeta.
  split; [reflexivity |].
  split; [reflexivity |].
  split; [reflexivity |].
  split; [reflexivity |].
  intros H.
  specialize (H hasty 0 3 (ko 1) [mkBeat (5 * time.Second) (ko 1)]).
  cbv zeta in H.
  destruct H as [_ Hticks]; [reflexivity | reflexivity |].
  vm_compute in Hticks. discriminate Hticks.
Qed.

(** C3, amended: the first poll only records its success or failure; no
    [ShouldExit] is evaluated for it.  Before any tick has arrived [Go] has
    not returned; in every run there are exactly as many exit tests as
    ticks received, and a run that returned has received at least one
    tick. *)
Theorem first_poll_only_records
    (rc : monitorLooper) (t0 draw : Z) (first : reply) (beats : list beat) :
  let w1 := snd (startup rc draw first (boot rc t0)) in
  let r := run rc t0 draw first beats in
  box w1 = poll_box first (clock w1) (FailBox rc) /\
  exit_tests (trace w1) = 0%nat /\
  fst (run rc t0 draw first []) =
    (if Interval rc <=? 0 then Panicked else Waiting) /\
  exit_tests (trace (snd r)) = ticks (trace (snd r)) /\
  match fst r with
  | Returned => (1 <= ticks (trace (snd r)))%nat
  | Waiting | Panicked => True
  end.
Proof.
  intros w1 r.
  destruct (startup_events_counts rc t0 draw first)
    as (_ & Ht & He & _ & _).
  split; [unfold w1; rewrite startup_boot; reflexivity |].
  split; [unfold w1; rewrite startup_boot; exact He |].
  split.
  { rewrite run_unfold. destruct (Interval rc <=? 0); reflexivity. }
  destruct (run_accounting rc t0 draw first beats)
    as [(_ & Hp & Htr) | (_ & more & Htr & _ & Hem & _ & _ & Hout)];
    fold r in Htr.
  - fold r in Hp. rewrite Hp, Htr, Ht, He. split; [reflexivity | exact I].
  - fold r in Hout. rewrite Htr, ticks_app, exit_tests_app, Ht, He.
    change (exit_tests (TickerStarted (Interval rc) :: more))
      with (exit_tests more).
    change (ticks (TickerStarted (Interval rc) :: more)) with (ticks more).
    split; [lia |].
    destruct (fst r); [lia | exact I | exact I].
Qed.

(** ** The configuration of [main] *)

(** C9, evaluated on the code: every interval and the threshold are
    positive, but the looper of ReplicationStatusMonitor is polled every
    ten minutes against a threshold of five, so its threshold does not
    exceed its interval, and one failed poll after a successful one makes
    it leave [Go]. *)
Theorem replication_status_interval_exceeds_threshold
    (name : source -> string) (t : Z) :
  (forall s, 0 < Interval (main_cfg name t s) /\
             0 < utils.threshold (FailBox (main_cfg name t s))) /\
  map (fun s => well_configured (main_cfg name t s)) sources
    = [true; false; true; true] /\
  Interval (main_cfg name t ReplicationStatusMonitor) = 2 * failAfter /\
  fst (run (main_cfg name t ReplicationStatusMonitor) t 0 (ok time.Second)
         [mkBeat (10 * time.Minute) (ko time.Second)]) = Returned.
Proof.
  split; [intros s; destruct s; split; reflexivity |].
  split; [reflexivity |].
  split; [reflexivity |].
  rewrite run_unfold.
  change (Interval (main_cfg name t ReplicationStatusMonitor) <=? 0)
    with false.
  cbv iota. rewrite loop_cons, tick_run, startup_boot.
  cbn [ticking arrived clock box trace answer wait ko ok took err poll_box].
  unfold utils.ShouldExit, utils.Failure, utils.Success.
  cbn [utils.lastSuccess utils.threshold main_cfg looper_of FailBox
       utils.NewFailBox].
  match goal with
  | |- fst (if ?c then _ else _) = _ =>
      replace c with true; [reflexivity |]
  end.
  symmetry. apply Z.ltb_lt.
  set (d := wrap_int (rand.Intn 15 0 * time.Second)).
  change d with 0. unfold failAfter. 
  change time.Minute with 60000000000.
  change time.Second with 1000000000. lia.
Qed.

(** ** The supervisor *)

Section FanIn.

Import Supervisor.

Variable cfg : source -> monitorLooper.

Lemma source_eqb_eq (a b : source) : source_eqb a b = true <-> a = b.
Proof. destruct a, b; cbn; split; congruence. Qed.

Lemma set_looper_same (f : source -> goroutine) (s : source)
    (g : goroutine) :
  set_looper f s g s = g.
Proof. unfold set_looper. destruct s; reflexivity. Qed.

Lemma set_looper_other (f : source -> goroutine) (s s' : source)
    (g : goroutine) :
  s <> s' -> set_looper f s g s' = f s'.
Proof.
  intros Hne. unfold set_looper.
  destruct (source_eqb s s') eqn:E; [| reflexivity].
  apply source_eqb_eq in E. contradiction.
Qed.

Lemma source_eq_dec (a b : source) : {a = b} + {a <> b}.
Proof. decide equality. Qed.

Lemma died_app (l l' : list logline) : died (l ++ l') = died l ++ died l'.
Proof.
  induction l as [|x l IH]; [reflexivity |].
  destruct x; cbn [app died]; rewrite ?IH; reflexivity.
Qed.

Lemma consistent_init : consistent init.
Proof.
  split; cbn.
  - intros s m H. discriminate H.
  - repeat split; intros; discriminate.
Qed.

Lemma offered_literal (name : string) (rc : monitorLooper) (t0 draw : Z)
    (first : reply) (beats : list beat) (m : string) :
  offered name rc t0 draw first beats = Some m ->
  m = name /\ fst (run rc t0 draw first beats) = Returned.
Proof.
  unfold offered.
  destruct (fst (run rc t0 draw first beats)); intros H;
    inversion H; split; reflexivity.
Qed.

Lemma consistent_fire (l : label) (st st' : state) :
  consistent st -> fire cfg l st = Some st' -> consistent st'.
Proof.
  intros [Hlit Hmain] Hfire. unfold fire in Hfire.
  destruct (proc st) eqn:Hproc; [| discriminate].
  destruct l as [s t0 draw first beats | s | | reason].
  - destruct (loopers st s) eqn:Hs; try discriminate.
    destruct (offered _ _ _ _ _ _) as [m|] eqn:Hoff; [| discriminate].
    apply offered_literal in Hoff as [-> _].
    injection Hfire as <-. split; cbn [loopers main_at log proc].
    + intros s' m' H. destruct (source_eq_dec s s') as [<- | Hne].
      * rewrite set_looper_same in H. congruence.
      * rewrite set_looper_other in H by exact Hne. eauto.
    + assert (Hkeep : forall s', set_looper (loopers st) s
                        (Sending (literal_of s)) s' = Finished ->
                      loopers st s' = Finished).
      { intros s' H. destruct (source_eq_dec s s') as [<- | Hne].
        - rewrite set_looper_same in H. discriminate.
        - rewrite set_looper_other in H by exact Hne. exact H. }
      assert (Hback : forall s', loopers st s' = Finished ->
                set_looper (loopers st) s (Sending (literal_of s)) s'
                = Finished).
      { intros s' H. rewrite set_looper_other; [exact H |].
        intros <-. congruence. }
      destruct (main_at st).
      * destruct Hmain as (Hnone & Hd & _).
        repeat split; [| exact Hd | discriminate].
        intros s' H. apply (Hnone s'). auto.
      * destruct Hmain as ((s1 & Hm & Hf & Hu) & Hd & _).
        repeat split; [| exact Hd | discriminate].
        exists s1. repeat split; auto.
      * destruct Hmain as (_ & Hex). congruence.
  - destruct (loopers st s) as [| m |] eqn:Hs; try discriminate.
    destruct (main_at st) eqn:Hm; try discriminate.
    injection Hfire as <-. destruct Hmain as (Hnone & Hd & _).
    split; cbn [loopers main_at log proc].
    + intros s' m' H. destruct (source_eq_dec s s') as [<- | Hne].
      * rewrite set_looper_same in H. discriminate.
      * rewrite set_looper_other in H by exact Hne. eauto.
    + repeat split; [| exact Hd | discriminate].
      exists s. repeat split.
      * eauto.
      * apply set_looper_same.
      * intros s' H. destruct (source_eq_dec s s') as [<- | Hne];
          [reflexivity |].
        rewrite set_looper_other in H by exact Hne.
        exfalso. exact (Hnone s' H).
  - destruct (main_at st) as [| m |] eqn:Hm; try discriminate.
    injection Hfire as <-.
    destruct Hmain as ((s1 & -> & Hf & Hu) & Hd & _).
    split; cbn [loopers main_at log proc]; [exact Hlit |].
    split; [| reflexivity].
    exists s1. rewrite died_app, Hd. repeat split; auto.
  - injection Hfire as <-.
    split; cbn [loopers main_at log proc]; [exact Hlit |].
    rewrite died_app, app_nil_r.
    destruct (main_at st).
    + destruct Hmain as (Hnone & Hd & _).
      repeat split; [exact Hnone | exact Hd | discriminate].
    + destruct Hmain as (Hex & Hd & _).
      repeat split; [exact Hex | exact Hd | discriminate].
    + destruct Hmain as (_ & Hex). congruence.
Qed.

Lemma consistent_exec (ls : list label) :
  forall st st',
    consistent st -> exec cfg ls st = Some st' -> consistent st'.
Proof.
  induction ls as [|l ls IH]; intros st st' Hc Hex; cbn [exec] in Hex.
  - injection Hex as <-. exact Hc.
  - destruct (fire cfg l st) as [st1|] eqn:Hf; [| discriminate].
    eapply IH; [| exact Hex]. eapply consistent_fire; eassumption.
Qed.

Lemma reachable_consistent (ls : list label) (st : state) :
  exec cfg ls init = Some st -> consistent st.
Proof. apply consistent_exec, consistent_init. Qed.

End FanIn.

(** C6: in every state [main] can reach, a goroutine blocked on its send
    offers the literal naming its own source and got there because its
    [Go] returned; what the supervisor has received, and what its "A
    monitor died" line names, is the literal of the one source whose send
    completed; a looper whose [Go] returns gets to its send; and once a
    send is pending while the supervisor is blocked, the hand-off followed
    by lines 98-100 logs that source and ends the process. *)
Theorem exited_source_is_published_and_ends_process
    (cfg : source -> monitorLooper) (ls : list Supervisor.label)
    (st : Supervisor.state)
    (Hreach : Supervisor.exec cfg ls Supervisor.init = Some st) :
  (forall s m, Supervisor.loopers st s = Supervisor.Sending m ->
               m = literal_of s) /\
  (forall m, Supervisor.main_at st = Supervisor.Received m ->
             exists s, m = literal_of s /\
                       Supervisor.loopers st s = Supervisor.Finished) /\
  (forall m, In m (Supervisor.died (Supervisor.log st)) ->
             exists s, m = literal_of s /\
                       Supervisor.loopers st s = Supervisor.Finished /\
                       Supervisor.died (Supervisor.log st) = [m] /\
                       Supervisor.proc st = Supervisor.Exited 0) /\
  (forall s t0 draw first beats,
     Supervisor.proc st = Supervisor.Alive ->
     Supervisor.loopers st s = Supervisor.InGo ->
     (fst (run (cfg s) t0 draw first beats) = Returned <->
      exists st',
        Supervisor.fire cfg (Supervisor.GoReturns s t0 draw first beats) st
          = Some st' /\
        Supervisor.loopers st' s = Supervisor.Sending (literal_of s))) /\
  (forall s m,
     Supervisor.proc st = Supervisor.Alive ->
     Supervisor.main_at st = Supervisor.Blocked ->
     Supervisor.loopers st s = Supervisor.Sending m ->
     exists st',
       Supervisor.exec cfg [Supervisor.Handoff s; Supervisor.MainReturns] st
         = Some st' /\
       Supervisor.proc st' = Supervisor.Exited 0 /\
       Supervisor.log st' = Supervisor.log st ++ [LogDied (literal_of s)]).
Proof.
  pose proof (reachable_consistent cfg ls st Hreach) as [Hlit Hmain].
  split; [exact Hlit |].
  split.
  { intros m Hm. rewrite Hm in Hmain.
    destruct Hmain as ((s & -> & Hf & _) & _). eauto. }
  split.
  { intros m Hin. destruct (Supervisor.main_at st).
    - destruct Hmain as (_ & Hd & _). rewrite Hd in Hin. destruct Hin.
    - destruct Hmain as (_ & Hd & _). rewrite Hd in Hin. destruct Hin.
    - destruct Hmain as ((s & Hd & Hf & _) & Hex).
      rewrite Hd in Hin. destruct Hin as [<- | []].
      exists s. auto. }
  split.
  { intros s t0 draw first beats Hp Hs. unfold Supervisor.fire, offered.
    rewrite Hp, Hs. split.
    - intros ->. eexists. split; [reflexivity |].
      cbn [Supervisor.loopers]. apply set_looper_same.
    - intros (st' & Hf & _).
      destruct (fst (run (cfg s) t0 draw first beats));
        [reflexivity | discriminate | discriminate]. }
  intros s m Hp Hb Hs. pose proof (Hlit s m Hs) as ->.
  assert (Hhand : Supervisor.fire cfg (Supervisor.Handoff s) st =
            Some {| Supervisor.loopers :=
                      Supervisor.set_looper (Supervisor.loopers st) s
                        Supervisor.Finished;
                    Supervisor.main_at := Supervisor.Received (literal_of s);
                    Supervisor.log := Supervisor.log st;
                    Supervisor.proc := Supervisor.Alive |}).
  { unfold Supervisor.fire. rewrite Hp, Hs, Hb. reflexivity. }
  cbn [Supervisor.exec]. rewrite Hhand.
  eexists. split; [reflexivity |]. split; reflexivity.
Qed.

Lemma exited_source_is_published_and_ends_process_witness :
  let cfg := main_cfg plain_name 0 in
  let dead := [mkBeat (6 * time.Minute) (ko time.Second)] in
  let ls := [Supervisor.GoReturns ThroughputMonitor 0 7 (ok time.Second) dead;
             Supervisor.Handoff ThroughputMonitor;
             Supervisor.MainReturns] in
  exists st,
    Supervisor.exec cfg ls Supervisor.init = Some st /\
    Supervisor.proc st = Supervisor.Exited 0 /\
    Supervisor.log st = [LogDied "ThroughputMonitor"] /\
    forall m, In m (Supervisor.died (Supervisor.log st)) ->
              exists s, m = literal_of s /\
                        Supervisor.loopers st s = Supervisor.Finished.
Proof.
  intros cfg dead ls.
  eexists. split; [vm_compute; reflexivity |].
  split; [reflexivity |]. split; [reflexivity |].
  intros m Hin.
  destruct (exited_source_is_published_and_ends_process cfg ls _ eq_refl)
    as (_ & _ & Hdied & _).
  destruct (Hdied m Hin) as (s & Hm & Hf & _).
  exists s. split; [exact Hm | exact Hf].
Defined.

(** C10: whenever the process is alive, the return of [ListenAndServe]
    ends it through [log.Fatal], with exit status 1 and without any "A
    monitor died" line being added; this can happen from the initial
    state, while every looper is still inside [Go]. *)
Theorem server_failure_ends_process
    (cfg : source -> monitorLooper) (ls : list Supervisor.label)
    (st : Supervisor.state) (reason : string)
    (Hreach : Supervisor.exec cfg ls Supervisor.init = Some st)
    (Halive : Supervisor.proc st = Supervisor.Alive) :
  Supervisor.exec cfg (ls ++ [Supervisor.ServerFails reason]) Supervisor.init
  = Some {| Supervisor.loopers := Supervisor.loopers st;
            Supervisor.main_at := Supervisor.main_at st;
            Supervisor.log := Supervisor.log st ++ [LogFatal reason];
            Supervisor.proc := Supervisor.Exited 1 |} /\
  Supervisor.died (Supervisor.log st ++ [LogFatal reason]) = [] /\
  (forall l, Supervisor.fire cfg l
               {| Supervisor.loopers := Supervisor.loopers st;
                  Supervisor.main_at := Supervisor.main_at st;
                  Supervisor.log := Supervisor.log st ++ [LogFatal reason];
                  Supervisor.proc := Supervisor.Exited 1 |} = None).
Proof.
  assert (Happ : forall l1 l2 s0,
            Supervisor.exec cfg (l1 ++ l2) s0 =
            match Supervisor.exec cfg l1 s0 with
            | Some s1 => Supervisor.exec cfg l2 s1
            | None => None
            end).
  { induction l1 as [|l l1 IH]; intros l2 s0; [reflexivity |].
    cbn [app Supervisor.exec].
    destruct (Supervisor.fire cfg l s0); [apply IH | reflexivity]. }
  pose proof (reachable_consistent cfg ls st Hreach) as [_ Hmain].
  split; [| split].
  - rewrite Happ, Hreach. cbn [Supervisor.exec]. unfold Supervisor.fire.
    rewrite Halive. reflexivity.
  - rewrite died_app, app_nil_r.
    destruct (Supervisor.main_at st).
    + destruct Hmain as (_ & Hd & _). exact Hd.
    + destruct Hmain as (_ & Hd & _). exact Hd.
    + destruct Hmain as (_ & Hex). congruence.
  - intros l. reflexivity.
Qed.

Lemma server_failure_ends_process_witness :
  Supervisor.exec (main_cfg plain_name 0)
    [Supervisor.ServerFails "listen tcp 127.0.0.1:8080: bind: address already in use"]
    Supervisor.init
  = Some {| Supervisor.loopers := fun _ => Supervisor.InGo;
            Supervisor.main_at := Supervisor.Blocked;
            Supervisor.log :=
              [LogFatal "listen tcp 127.0.0.1:8080: bind: address already in use"];
            Supervisor.proc := Supervisor.Exited 1 |}.
Proof.
  exact (proj1 (server_failure_ends_process (main_cfg plain_name 0) []
                  Supervisor.init _ eq_refl eq_refl)).
Defined.

(** * Further properties of the code *)

(** ** Runs over more ticks *)




(** ** A non-positive interval *)

(** X2: with a non-positive [Interval], [Go] still sleeps, makes the
    startup poll and records it, and then panics in [time.NewTicker]:
    whatever ticks are supplied there is exactly one [Retrieve], no ticker
    and no exit test, and the goroutine never reaches its send. *)
Theorem nonpositive_interval_panics_after_first_poll
    (rc : monitorLooper) (t0 draw : Z) (first : reply) (beats : list beat)
    (name : string)
    (Hinterval : Interval rc <= 0) :
  let r := run rc t0 draw first beats in
  fst r = Panicked /\
  trace (snd r) = startup_events rc t0 draw first /\
  box (snd r) = poll_box first (clock (snd r)) (FailBox rc) /\
  calls (trace (snd r)) = 1%nat /\
  count is_ticker (trace (snd r)) = 0%nat /\
  exit_tests (trace (snd r)) = 0%nat /\
  offered name rc t0 draw first beats = None.
Proof.
  intros r.
  assert (Hr : r = (Panicked, snd (startup rc draw first (boot rc t0)))).
  { unfold r. rewrite run_unfold.
    replace (Interval rc <=? 0) with true
      by (symmetry; apply Z.leb_le; exact Hinterval).
    reflexivity. }
  destruct (startup_events_counts rc t0 draw first)
    as (Hc & _ & He & _ & _).
  unfold offered. fold r. rewrite Hr. cbn [fst snd].
  rewrite startup_boot. cbn [trace box clock].
  repeat split; try assumption.
  unfold count, startup_events, poll_events.
  destruct (err first); reflexivity.
Qed.

Lemma nonpositive_interval_panics_after_first_poll_witness :
  let rc := {| Interval := 0; FailBox := utils.NewFailBox 0 failAfter;
               Chk := {| Name := "idle" |} |} in
  fst (run rc 0 4 (ok 1) [mkBeat 1 (ko 1); mkBeat 1 (ko 1)]) = Panicked /\
  calls (trace (snd (run rc 0 4 (ok 1) [mkBeat 1 (ko 1); mkBeat 1 (ko 1)])))
  = 1%nat.
Proof.
  intros rc.
  destruct (nonpositive_interval_panics_after_first_poll rc 0 4 (ok 1)
              [mkBeat 1 (ko 1); mkBeat 1 (ko 1)] "idle")
    as (Hp & _ & _ & Hc & _); [discriminate |].
  split; [exact Hp | exact Hc].
Defined.

(** ** What every iteration preserves *)

Lemma loop_preserves (rc : monitorLooper) (I : world -> Prop)
    (good : beat -> bool) :
  (forall b w, good b = true -> I w ->
               I (snd (tick rc (answer b) (arrived b w)))) ->
  forall beats w,
    forallb good beats = true -> I w -> I (snd (loop rc beats w)).
Proof.
  intros Hstep. induction beats as [|b rest IH]; intros w Hall Hw.
  - exact Hw.
  - cbn [forallb] in Hall. apply andb_true_iff in Hall as [Hb Hrest].
    rewrite loop_cons. specialize (Hstep b w Hb Hw).
    destruct (tick rc (answer b) (arrived b w)) as [[|] w'];
      cbn [snd] in *; [exact Hstep |].
    apply IH; assumption.
Qed.

Lemma forallb_always {A} (l : list A) : forallb (fun _ => true) l = true.
Proof. induction l; [reflexivity | assumption]. Qed.

Lemma count_app (p : event -> bool) (l l' : list event) :
  count p (l ++ l') = (count p l + count p l')%nat.
Proof. unfold count. rewrite filter_app, length_app. reflexivity. Qed.

Lemma tick_events_ledger (rc : monitorLooper) (r : reply) (t : Z)
    (b : utils.FailBox) :
  (count records_success (tick_events rc r t b)
   + count records_failure (tick_events rc r t b))%nat = 1%nat /\
  count is_error_line (tick_events rc r t b)
  = count records_failure (tick_events rc r t b).
Proof.
  unfold tick_events, poll_events.
  destruct (err r), (utils.ShouldExit t (poll_box r t b));
    split; reflexivity.
Qed.

Lemma tick_balanced (rc : monitorLooper) (b : beat) (w : world) :
  balanced (trace w) ->
  balanced (trace (snd (tick rc (answer b) (arrived b w)))).
Proof.
  intros (Hrec & Hlog & Hcalls & Htests).
  rewrite tick_run. cbn [snd trace arrived].
  match goal with
  | |- context [tick_events ?a ?r ?t ?x] =>
      destruct (tick_events_counts a r t x) as (Hc & Ht & He & _ & _);
      destruct (tick_events_ledger a r t x) as (Hr & Hl);
      set (es := tick_events a r t x) in *
  end.
  unfold balanced.
  rewrite !count_app, !calls_app, !ticks_app, !exit_tests_app.
  change (count records_success [TickReceived]) with 0%nat.
  change (count records_failure [TickReceived]) with 0%nat.
  change (count is_error_line [TickReceived]) with 0%nat.
  change (calls [TickReceived]) with 0%nat.
  change (ticks [TickReceived]) with 1%nat.
  change (exit_tests [TickReceived]) with 0%nat.
  repeat split; lia.
Qed.

(** X3: in every run of [Go], panicking or not, there is exactly one
    [Retrieve] for the startup poll and one per tick received; each
    retrieval is recorded exactly once, by [Success] or by [Failure]; each
    failure, and nothing else, is preceded by one error line; and there is
    one exit test per tick received. *)
Theorem every_retrieval_is_recorded_once
    (rc : monitorLooper) (t0 draw : Z) (first : reply) (beats : list beat) :
  let tr := trace (snd (run rc t0 draw first beats)) in
  calls tr = S (ticks tr) /\
  (count records_success tr + count records_failure tr)%nat = calls tr /\
  count is_error_line tr = count records_failure tr /\
  exit_tests tr = ticks tr /\
  (ticks tr <= List.length beats)%nat.
Proof.
  intros tr.
  assert (Hstart : balanced (startup_events rc t0 draw first)).
  { unfold balanced, startup_events, poll_events.
    destruct (err first); repeat split; reflexivity. }
  assert (Hbal : balanced tr).
  { unfold tr. rewrite run_unfold.
    destruct (Interval rc <=? 0); cbn [snd].
    - rewrite startup_boot. exact Hstart.
    - apply (loop_preserves rc (fun w => balanced (trace w))
               (fun _ => true)).
      + intros b w _. apply tick_balanced.
      + apply forallb_always.
      + rewrite startup_boot. cbn [ticking trace].
        destruct Hstart as (H1 & H2 & H3 & H4). unfold balanced.
        rewrite !count_app, !calls_app, !ticks_app, !exit_tests_app.
        change (count records_success [TickerStarted (Interval rc)])
          with 0%nat.
        change (count records_failure [TickerStarted (Interval rc)])
          with 0%nat.
        change (count is_error_line [TickerStarted (Interval rc)])
          with 0%nat.
        change (calls [TickerStarted (Interval rc)]) with 0%nat.
        change (ticks [TickerStarted (Interval rc)]) with 0%nat.
        change (exit_tests [TickerStarted (Interval rc)]) with 0%nat.
        repeat split; lia. }
  destruct Hbal as (H1 & H2 & H3 & H4).
  repeat split; try assumption.
  destruct (startup_events_counts rc t0 draw first) as (_ & Ht & _).
  destruct (run_accounting rc t0 draw first beats)
    as [(_ & _ & Htr) | (_ & more & Htr & _ & _ & Hlen & _)];
    fold tr in Htr; rewrite Htr.
  - rewrite Ht. lia.
  - rewrite ticks_app, Ht.
    change (ticks (TickerStarted (Interval rc) :: more)) with (ticks more).
    lia.
Qed.

(** ** The clock readings *)











(** ** Where a run ends *)

Ltac flatten_apps :=
  repeat (progress (repeat rewrite <- app_assoc; cbn [app]));
  rewrite ?app_nil_r.

Lemma loop_exit_shape (rc : monitorLooper) (beats : list beat) :
  forall w,
    let r := loop rc beats w in
    match fst r with
    | Returned =>
        exists pre t,
          trace (snd r) =
          trace w ++ pre ++
          [BoxShouldExit t true;
           Logged (LogExiting (Name (Chk rc)) failAfter
                     (utils.LastSuccess (box (snd r))))] /\
          never_true pre = true /\
          t = clock (snd r) /\
          utils.ShouldExit t (box (snd r)) = true
    | Waiting =>
        exists more,
          trace (snd r) = trace w ++ more /\ never_true more = true
    | Panicked => False
    end.
Proof.
  induction beats as [|b rest IH]; intros w r.
  - subst r. rewrite loop_nil. cbn [fst snd]. exists [].
    rewrite app_nil_r. split; reflexivity.
  - subst r. rewrite loop_cons, tick_run.
    set (t := clock (arrived b w) + took (answer b)).
    set (b' := poll_box (answer b) t (box (arrived b w))).
    destruct (poll_events_counts rc (answer b) t (box (arrived b w)))
      as (_ & _ & _ & Hn & _).
    unfold tick_events. fold b'.
    destruct (utils.ShouldExit t b') eqn:Hx.
    + cbn [fst snd trace box clock arrived].
      exists (TickReceived :: Logged (LogTick (Name (Chk rc)))
              :: poll_events rc (answer b) t (box (arrived b w))), t.
      repeat split.
      * flatten_apps. reflexivity.
      * exact Hn.
      * exact Hx.
    + match goal with
      | |- context [loop rc rest ?w1] =>
          specialize (IH w1); cbv zeta in IH;
          destruct (loop rc rest w1) as [o w2]
      end.
      cbn [fst snd trace] in *.
      destruct o; [| | exact IH].
      * destruct IH as (pre & t' & Htr & Hpre & Ht' & Hx').
        exists (TickReceived :: Logged (LogTick (Name (Chk rc)))
                :: poll_events rc (answer b) t (box (arrived b w))
                ++ [BoxShouldExit t false] ++ pre), t'.
        repeat split; [| | exact Ht' | exact Hx'].
        -- rewrite Htr. cbn [arrived trace]. flatten_apps. reflexivity.
        -- change (never_true
                     (poll_events rc (answer b) t (box (arrived b w))
                      ++ [BoxShouldExit t false] ++ pre) = true).
           rewrite !never_true_app, Hn, Hpre. reflexivity.
      * destruct IH as (more & Htr & Hmore).
        exists (TickReceived :: Logged (LogTick (Name (Chk rc)))
                :: poll_events rc (answer b) t (box (arrived b w))
                ++ [BoxShouldExit t false] ++ more).
        split.
        -- rewrite Htr. cbn [arrived trace]. flatten_apps. reflexivity.
        -- change (never_true
                     (poll_events rc (answer b) t (box (arrived b w))
                      ++ [BoxShouldExit t false] ++ more) = true).
           rewrite !never_true_app, Hn, Hmore. reflexivity.
Qed.

(** X4: [Go] returns exactly when an exit test answers true, and at the
    first one: the trace of a run that returned ends with that test
    followed by the "exiting" line, which shows the constant [failAfter]
    and the last success of the box, and every earlier test answered
    false; in a run that did not return no test answered true. *)
Theorem return_follows_first_true_exit_test
    (rc : monitorLooper) (t0 draw : Z) (first : reply) (beats : list beat) :
  let r := run rc t0 draw first beats in
  match fst r with
  | Returned =>
      exists pre,
        trace (snd r) =
        pre ++
        [BoxShouldExit (clock (snd r)) true;
         Logged (LogExiting (Name (Chk rc)) failAfter
                   (utils.LastSuccess (box (snd r))))] /\
        never_true pre = true /\
        utils.ShouldExit (clock (snd r)) (box (snd r)) = true
  | Waiting | Panicked => never_true (trace (snd r)) = true
  end.
Proof.
  intros r. subst r.
  destruct (startup_events_counts rc t0 draw first)
    as (_ & _ & _ & Hn & _).
  rewrite run_unfold. destruct (Interval rc <=? 0).
  - cbn [fst snd]. rewrite startup_boot. exact Hn.
  - pose proof (loop_exit_shape rc beats
                  (ticking rc (snd (startup rc draw first (boot rc t0)))))
      as H.
    cbv zeta in H.
    destruct (loop rc beats _) as [o w]. cbn [fst snd] in *.
    rewrite startup_boot in H. cbn [ticking trace] in H.
    destruct o; [| | destruct H].
    + destruct H as (pre & t & Htr & Hpre & -> & Hx).
      exists ((startup_events rc t0 draw first
               ++ [TickerStarted (Interval rc)]) ++ pre).
      repeat split; [| | exact Hx].
      * rewrite Htr. flatten_apps. reflexivity.
      * rewrite !never_true_app, Hn, Hpre. reflexivity.
    + destruct H as (more & Htr & Hmore).
      rewrite Htr, !never_true_app, Hn, Hmore. reflexivity.
Qed.

(** ** The tick at which a run ends *)

Lemma ShouldExit_reference (b : utils.FailBox) (t : Z) :
  utils.ShouldExit t b = (utils.threshold b <? t - reference b).
Proof.
  unfold utils.ShouldExit, reference.
  destruct (utils.lastSuccess b); reflexivity.
Qed.

Lemma reference_poll_box (r : reply) (t : Z) (b : utils.FailBox) :
  reference (poll_box r t b) =
  match err r with None => t | Some _ => reference b end.
Proof. unfold poll_box, reference. destruct (err r); reflexivity. Qed.

Lemma loop_exit_index (rc : monitorLooper) (beats : list beat) :
  forall w,
    let r := loop rc beats w in
    match exit_index (utils.threshold (box w)) (reference (box w))
            (clock w) beats with
    | Some k =>
        fst r = Returned /\
        ticks (trace (snd r)) = (ticks (trace w) + S k)%nat /\
        (k < List.length beats)%nat
    | None =>
        fst r = Waiting /\
        ticks (trace (snd r)) = (ticks (trace w) + List.length beats)%nat /\
        clock (snd r) = clock_after (clock w) beats
    end.
Proof.
  induction beats as [|b rest IH]; intros w r.
  - subst r. cbn [exit_index]. rewrite loop_nil. cbn [fst snd List.length].
    repeat split. lia.
  - subst r. rewrite loop_cons, tick_run. cbn [exit_index clock_after fold_left].
    cbn [arrived clock box trace].
    set (t := clock w + wait b + took (answer b)).
    rewrite ShouldExit_reference, poll_box_threshold, reference_poll_box.
    unfold succeeds.
    set (ref' := match err (answer b) with
                 | Some _ => reference (box w) | None => t end).
    replace (if match err (answer b) with
                | Some _ => false | None => true end
             then t else reference (box w)) with ref'
      by (unfold ref'; destruct (err (answer b)); reflexivity).
    destruct (utils.threshold (box w) <? t - ref') eqn:Hx.
    + cbn [fst snd trace List.length].
      destruct (tick_events_counts rc (answer b) t (box w))
        as (_ & Ht & _).
      rewrite !ticks_app, Ht.
      change (ticks [TickReceived]) with 1%nat.
      repeat split; lia.
    + match goal with
      | |- context [loop rc rest ?w1] =>
          specialize (IH w1); cbv zeta in IH;
          cbn [clock box trace] in IH;
          rewrite poll_box_threshold, reference_poll_box in IH;
          fold ref' in IH;
          destruct (loop rc rest w1) as [o w2]
      end.
      destruct (tick_events_counts rc (answer b) t (box w))
        as (_ & Ht & _).
      rewrite !ticks_app, Ht in IH.
      change (ticks [TickReceived]) with 1%nat in IH.
      fold (clock_after t rest).
      destruct (exit_index (utils.threshold (box w)) ref' t rest) as [k|];
        cbn [option_map fst snd List.length] in *;
        destruct IH as (Ho & Hticks & Hrest); repeat split;
        try assumption; lia.
Qed.

Lemma run_exit_index (rc : monitorLooper) (t0 draw : Z) (first : reply)
    (beats : list beat) :
  0 < Interval rc ->
  let t1 := t0 + wrap_int (rand.Intn 15 draw * time.Second) + took first in
  let r := run rc t0 draw first beats in
  match exit_index (utils.threshold (FailBox rc))
          (reference_after rc first t1) t1 beats with
  | Some k =>
      fst r = Returned /\ ticks (trace (snd r)) = S k /\
      (k < List.length beats)%nat
  | None =>
      fst r = Waiting /\ ticks (trace (snd r)) = List.length beats /\
      clock (snd r) = clock_after t1 beats
  end.
Proof.
  intros Hi t1 r. subst r. rewrite run_unfold.
  replace (Interval rc <=? 0) with false
    by (symmetry; apply Z.leb_gt; exact Hi).
  rewrite startup_boot. fold t1.
  pose proof (loop_exit_index rc beats
                (ticking rc (snd (startup rc draw first (boot rc t0)))))
    as H.
  cbv zeta in H. rewrite startup_boot in H.
  cbn [ticking clock box trace] in H.
  rewrite poll_box_threshold, reference_poll_box in H.
  fold t1 in H. fold (reference_after rc first t1) in H.
  destruct (startup_events_counts rc t0 draw first) as (_ & Ht & _).
  rewrite ticks_app, Ht in H.
  change (ticks [TickerStarted (Interval rc)]) with 0%nat in H.
  cbn [Nat.add] in H. exact H.
Qed.

(** X6: the tick at which [Go] returns can be computed from the durations
    and results alone: it is the first tick whose retrieval returns more
    than the threshold after the latest success so far (the startup poll
    counts; before any success, the reference of the box).  If there is
    such a tick, [Go] returns having received exactly that many ticks; if
    there is none, it has polled every tick and is waiting, the clock
    having advanced by all the waits and retrievals. *)
Theorem run_ends_at_exit_index
    (rc : monitorLooper) (t0 draw : Z) (first : reply) (beats : list beat)
    (Hinterval : 0 < Interval rc) :
  let t1 := t0 + (draw mod 15) * time.Second + took first in
  let r := run rc t0 draw first beats in
  match exit_index (utils.threshold (FailBox rc))
          (reference_after rc first t1) t1 beats with
  | Some k =>
      fst r = Returned /\ ticks (trace (snd r)) = S k /\
      (k < List.length beats)%nat
  | None =>
      fst r = Waiting /\ ticks (trace (snd r)) = List.length beats /\
      clock (snd r) = clock_after t1 beats
  end.
Proof.
  intros t1 r. destruct (jitter_range draw) as [Hd _]. cbv zeta in Hd.
  unfold t1. rewrite <- Hd.
  exact (run_exit_index rc t0 draw first beats Hinterval).
Qed.

Lemma run_ends_at_exit_index_witness :
  let rc := looper_of plain_name 0 ThroughputMonitor in
  let beats := [mkBeat (2 * time.Minute) (ko time.Second);
                mkBeat (2 * time.Minute) (ko time.Second);
                mkBeat (2 * time.Minute) (ko time.Second);
                mkBeat (2 * time.Minute) (ok time.Second)] in
  exit_index failAfter (2 * time.Second + time.Second)
    (2 * time.Second + time.Second) beats = Some 2%nat /\
  fst (run rc 0 2 (ok time.Second) beats) = Returned /\
  ticks (trace (snd (run rc 0 2 (ok time.Second) beats))) = 3%nat.
Proof.
  intros rc beats. split; [reflexivity |].
  pose proof (run_ends_at_exit_index rc 0 2 (ok time.Second) beats eq_refl)
    as H.
  cbv zeta in H.
  change (exit_index (utils.threshold (FailBox rc))
            (reference_after rc (ok time.Second)
               (0 + 2 mod 15 * time.Second + took (ok time.Second)))
            (0 + 2 mod 15 * time.Second + took (ok time.Second)) beats)
    with (Some 2%nat) in H.
  destruct H as (Hr & Ht & _). split; [exact Hr | exact Ht].
Defined.

(** ** Thresholds and dead sources *)

Lemma exit_index_lower_threshold (th th' : Z) (beats : list beat) :
  th' <= th ->
  forall ref t k,
    exit_index th ref t beats = Some k ->
    exists k', exit_index th' ref t beats = Some k' /\ (k' <= k)%nat.
Proof.
  intros Hle. induction beats as [|b rest IH]; intros ref t k H;
    [discriminate H |].
  cbn [exit_index] in *.
  set (t' := t + wait b + took (answer b)) in *.
  set (ref' := if succeeds b then t' else ref) in *.
  destruct (th' <? t' - ref') eqn:Hx'.
  - exists 0%nat. split; [reflexivity | lia].
  - destruct (th <? t' - ref') eqn:Hx.
    + apply Z.ltb_lt in Hx. apply Z.ltb_ge in Hx'. lia.
    + destruct (exit_index th ref' t' rest) as [j|] eqn:Hj;
        [| discriminate H].
      injection H as <-.
      destruct (IH ref' t' j Hj) as (j' & Hj' & Hjj).
      exists (S j'). rewrite Hj'. split; [reflexivity | lia].
Qed.

(** X7: lowering the threshold never keeps a looper alive longer: if [Go]
    returns over some ticks, then with any smaller threshold in its box,
    and everything else equal, it returns over the same ticks after no more
    ticks than before. *)
Theorem lower_threshold_exits_no_later
    (rc : monitorLooper) (th' : Z) (t0 draw : Z) (first : reply)
    (beats : list beat)
    (Hinterval : 0 < Interval rc)
    (Hlower : th' <= utils.threshold (FailBox rc))
    (Hreturned : fst (run rc t0 draw first beats) = Returned) :
  let r' := run (with_threshold th' rc) t0 draw first beats in
  fst r' = Returned /\
  (ticks (trace (snd r')) <= ticks (trace (snd (run rc t0 draw first beats))))%nat.
Proof.
  intros r'.
  pose proof (run_exit_index rc t0 draw first beats Hinterval) as H.
  pose proof (run_exit_index (with_threshold th' rc) t0 draw first beats
                Hinterval) as H'.
  cbv zeta in H, H'. fold r' in H'.
  change (utils.threshold (FailBox (with_threshold th' rc))) with th' in H'.
  change (reference_after (with_threshold th' rc) first)
    with (reference_after rc first) in H'.
  destruct (exit_index (utils.threshold (FailBox rc)) _ _ beats) as [k|] eqn:Hk.
  - destruct (exit_index_lower_threshold _ th' beats Hlower _ _ k Hk)
      as (k' & Hk' & Hle).
    rewrite Hk' in H'. destruct H as (_ & Ht & _).
    destruct H' as (Hr' & Ht' & _). split; [exact Hr' | lia].
  - destruct H as (Hw & _). rewrite Hreturned in Hw. discriminate Hw.
Qed.

Lemma lower_threshold_exits_no_later_witness :
  let rc := looper_of plain_name 0 ThroughputMonitor in
  let beats := [mkBeat (2 * time.Minute) (ko time.Second);
                mkBeat (2 * time.Minute) (ko time.Second);
                mkBeat (2 * time.Minute) (ko time.Second)] in
  ticks (trace (snd (run rc 0 2 (ok time.Second) beats))) = 3%nat /\
  ticks (trace (snd (run (with_threshold time.Minute rc) 0 2
                       (ok time.Second) beats))) = 1%nat /\
  fst (run (with_threshold time.Minute rc) 0 2 (ok time.Second) beats)
  = Returned.
Proof.
  intros rc beats.
  split; [reflexivity |]. split; [reflexivity |].
  exact (proj1 (lower_threshold_exits_no_later rc time.Minute 0 2
                  (ok time.Second) beats eq_refl
                  ltac:(discriminate) eq_refl)).
Defined.

Lemma exit_index_all_fail (th : Z) (beats : list beat) :
  forallb fails beats = true ->
  beats <> [] ->
  forall ref t,
    th < clock_after t beats - ref ->
    exists k, exit_index th ref t beats = Some k.
Proof.
  induction beats as [|b rest IH]; intros Hall Hne ref t Hlate;
    [contradiction |].
  cbn [forallb] in Hall. apply andb_true_iff in Hall as [Hb Hrest].
  unfold fails in Hb. apply negb_true_iff in Hb.
  cbn [exit_index clock_after fold_left] in *. rewrite Hb.
  set (t' := t + wait b + took (answer b)) in *.
  destruct (th <? t' - ref) eqn:Hx; [eexists; reflexivity |].
  destruct rest as [|b' rest'].
  - cbn [fold_left] in Hlate. apply Z.ltb_ge in Hx. lia.
  - destruct (IH Hrest ltac:(discriminate) ref t' Hlate) as (k & Hk).
    rewrite Hk. eexists. reflexivity.
Qed.

(** X8: a source that stops answering is given up: if every ticker-driven
    retrieval fails and the last of them returns more than the threshold
    after the instant the exit test measures from (the startup poll if it
    succeeded, otherwise the reference of the box), then [Go] has returned,
    at that tick or before. *)
Theorem dead_source_is_given_up
    (rc : monitorLooper) (t0 draw : Z) (first : reply) (beats : list beat)
    (Hinterval : 0 < Interval rc)
    (Hdead : forallb fails beats = true)
    (Hsome : beats <> [])
    (Hlate :
       let t1 := t0 + (draw mod 15) * time.Second + took first in
       utils.threshold (FailBox rc)
       < clock_after t1 beats - reference_after rc first t1) :
  let r := run rc t0 draw first beats in
  fst r = Returned /\
  never_true (trace (snd r)) = false /\
  (1 <= ticks (trace (snd r)) <= List.length beats)%nat.
Proof.
  intros r. cbv zeta in Hlate.
  destruct (jitter_range draw) as [Hd _]. cbv zeta in Hd.
  rewrite <- Hd in Hlate.
  destruct (exit_index_all_fail _ beats Hdead Hsome _ _ Hlate) as (k & Hk).
  pose proof (run_exit_index rc t0 draw first beats Hinterval) as H.
  cbv zeta in H. rewrite Hk in H. fold r in H.
  destruct H as (Hr & Ht & Hlen).
  split; [exact Hr |]. split; [| lia].
  destruct (run_accounting rc t0 draw first beats)
    as [(Hneg & _) | (_ & more & Htr & _ & _ & _ & _ & Hout)]; [lia |].
  fold r in Htr, Hout. rewrite Hr in Hout. destruct Hout as [_ Hnt].
  rewrite Htr, never_true_app. change (never_true (TickerStarted _ :: more))
    with (never_true more).
  rewrite Hnt. apply andb_false_r.
Qed.

Lemma dead_source_is_given_up_witness :
  fst (run (looper_of plain_name 0 ReplicationProgressMonitor) 0 3
         (ko time.Second)
         [mkBeat (3 * time.Minute) (ko time.Second);
          mkBeat (3 * time.Minute) (ko time.Second)]) = Returned.
Proof.
  refine (proj1 (dead_source_is_given_up
                   (looper_of plain_name 0 ReplicationProgressMonitor) 0 3
                   (ko time.Second)
                   [mkBeat (3 * time.Minute) (ko time.Second);
                    mkBeat (3 * time.Minute) (ko time.Second)]
                   eq_refl eq_refl _ eq_refl)).
  discriminate.
Defined.

(** ** The whole program *)

Section Shutdown.

Import Supervisor.

Variable cfg : source -> monitorLooper.

Lemma accounted_init : accounted cfg [] init.
Proof.
  split; cbn.
  - intros s H. contradiction H. reflexivity.
  - reflexivity.
Qed.

Lemma leaves_app_l (s : source) (t0 draw : Z) (first : reply)
    (beats : list beat) (done more : list label) :
  leaves s t0 draw first beats done ->
  leaves s t0 draw first beats (done ++ more).
Proof. unfold leaves. intros H. apply in_or_app. left. exact H. Qed.

Lemma accounted_fire (done : list label) (l : label) (st st' : state) :
  accounted cfg done st -> fire cfg l st = Some st' ->
  accounted cfg (done ++ [l]) st'.
Proof.
  intros [Hrun Hlog] Hfire. unfold fire in Hfire.
  destruct (proc st) eqn:Hproc; [| discriminate].
  assert (Hold : forall s, loopers st s <> InGo ->
            exists t0 draw first beats,
              leaves s t0 draw first beats (done ++ [l]) /\
              fst (run (cfg s) t0 draw first beats) = Returned).
  { intros s Hs. destruct (Hrun s Hs) as (t0 & draw & first & beats & Hin & Hr).
    exists t0, draw, first, beats. split; [| exact Hr].
    apply leaves_app_l. exact Hin. }
  destruct l as [s t0 draw first beats | s | | reason].
  - destruct (loopers st s) eqn:Hs; try discriminate.
    destruct (offered _ _ _ _ _ _) as [m|] eqn:Hoff; [| discriminate].
    apply offered_literal in Hoff as [-> Hret].
    injection Hfire as <-. split; cbn [loopers log proc]; [| exact Hlog].
    intros s' Hs'. destruct (source_eq_dec s s') as [<- | Hne].
    + exists t0, draw, first, beats. split; [| exact Hret].
      unfold leaves. apply in_or_app. right. left. reflexivity.
    + rewrite set_looper_other in Hs' by exact Hne. apply Hold. exact Hs'.
  - destruct (loopers st s) as [| m |] eqn:Hs; try discriminate.
    destruct (main_at st); try discriminate.
    injection Hfire as <-. split; cbn [loopers log proc]; [| exact Hlog].
    intros s' Hs'. destruct (source_eq_dec s s') as [<- | Hne].
    + apply Hold. congruence.
    + rewrite set_looper_other in Hs' by exact Hne. apply Hold. exact Hs'.
  - destruct (main_at st) as [| m |]; try discriminate.
    injection Hfire as <-. split; cbn [loopers log proc]; [exact Hold |].
    left. split; [reflexivity |]. exists m. rewrite Hlog. reflexivity.
  - injection Hfire as <-. split; cbn [loopers log proc]; [exact Hold |].
    right. split; [reflexivity |]. exists reason. rewrite Hlog. reflexivity.
Qed.

Lemma accounted_exec (ls : list label) :
  forall done st st',
    accounted cfg done st -> exec cfg ls st = Some st' ->
    accounted cfg (done ++ ls) st'.
Proof.
  induction ls as [|l ls IH]; intros done st st' Hacc Hex; cbn [exec] in Hex.
  - injection Hex as <-. rewrite app_nil_r. exact Hacc.
  - destruct (fire cfg l st) as [st1|] eqn:Hf; [| discriminate].
    replace (done ++ l :: ls) with ((done ++ [l]) ++ ls)
      by (rewrite <- app_assoc; reflexivity).
    eapply IH; [| exact Hex]. eapply accounted_fire; eassumption.
Qed.

Lemma reachable_accounted (ls : list label) (st : state) :
  exec cfg ls init = Some st -> accounted cfg ls st.
Proof. intros H. exact (accounted_exec ls [] init st accounted_init H). Qed.

End Shutdown.

(** X9: the program reports a monitor as dead only for cause: whenever the
    log of a reachable state carries "A monitor died: m", m is the literal
    of a source whose looper left [Go] in a step of the schedule, and in
    the run of that step [Go] returned after an exit test that answered
    true. *)
Theorem died_line_only_after_true_exit_test
    (cfg : source -> monitorLooper) (ls : list Supervisor.label)
    (st : Supervisor.state) (m : string)
    (Hreach : Supervisor.exec cfg ls Supervisor.init = Some st)
    (Hdied : In m (Supervisor.died (Supervisor.log st))) :
  exists s t0 draw first beats,
    m = literal_of s /\
    leaves s t0 draw first beats ls /\
    fst (run (cfg s) t0 draw first beats) = Returned /\
    never_true (trace (snd (run (cfg s) t0 draw first beats))) = false /\
    (1 <= ticks (trace (snd (run (cfg s) t0 draw first beats))))%nat.
Proof.
  pose proof (reachable_consistent cfg ls st Hreach) as [_ Hmain].
  pose proof (reachable_accounted cfg ls st Hreach) as [Hrun _].
  assert (Hs : exists s, m = literal_of s /\
                 Supervisor.loopers st s = Supervisor.Finished).
  { destruct (Supervisor.main_at st).
    - destruct Hmain as (_ & Hd & _). rewrite Hd in Hdied. destruct Hdied.
    - destruct Hmain as (_ & Hd & _). rewrite Hd in Hdied. destruct Hdied.
    - destruct Hmain as ((s & Hd & Hf & _) & _).
      rewrite Hd in Hdied. destruct Hdied as [<- | []]. eauto. }
  destruct Hs as (s & -> & Hf).
  destruct (Hrun s) as (t0 & draw & first & beats & Hin & Hret);
    [congruence |].
  exists s, t0, draw, first, beats.
  split; [reflexivity |]. split; [exact Hin |]. split; [exact Hret |].
  destruct (run_accounting (cfg s) t0 draw first beats)
    as [(_ & Hp & _) | (_ & more & Htr & _ & _ & _ & _ & Hout)].
  - rewrite Hret in Hp. discriminate Hp.
  - rewrite Hret in Hout. destruct Hout as [Hticks Hnt].
    destruct (startup_events_counts (cfg s) t0 draw first) as (_ & Ht & _).
    rewrite Htr, never_true_app, ticks_app, Ht.
    change (never_true (TickerStarted (Interval (cfg s)) :: more))
      with (never_true more).
    change (ticks (TickerStarted (Interval (cfg s)) :: more))
      with (ticks more).
    rewrite Hnt. split; [apply andb_false_r | lia].
Qed.

Lemma died_line_only_after_true_exit_test_witness :
  let cfg := main_cfg plain_name 0 in
  let dead := [mkBeat (6 * time.Minute) (ko time.Second)] in
  let ls := [Supervisor.GoReturns ActiveTasksMonitor 0 7 (ok time.Second) dead;
             Supervisor.Handoff ActiveTasksMonitor;
             Supervisor.MainReturns] in
  exists s t0 draw first beats,
    "ActiveTasksMonitor"%string = literal_of s /\
    leaves s t0 draw first beats ls /\
    fst (run (cfg s) t0 draw first beats) = Returned.
Proof.
  intros cfg dead ls.
  destruct (died_line_only_after_true_exit_test cfg ls _
              "ActiveTasksMonitor" eq_refl (or_introl eq_refl))
    as (s & t0 & draw & first & beats & Hm & Hin & Hr & _).
  exists s, t0, draw, first, beats.
  split; [exact Hm |]. split; [exact Hin | exact Hr].
Defined.


